(** * changetracker: the snapshot reconciliation of a polling filesystem monitor

    A shallow embedding of [changetracker.py] (Python 2) and the proofs of
    the properties its specification states about it.

    Conventions of the embedding.
    - A Python [str] is a [string]; [None] is the [None] of [option].
    - [st_mtime] is a float that the program only stores and compares, so a
      modification time is an integer ([Z]) with its order.
    - A statement that can raise is a computation in the monad [M]: it
      returns [Ok v] or [Raise e] together with the state at that point, so
      the mutations done before an exception stay visible.
    - The calls into the Python library whose result the program does not
      fix (the MD5 digest, [os.path.join], the order in which a Python 2
      dict lists its values) are the fields of the class [Platform].
    - The filesystem below the monitored root is a record of probes,
      [FileSystem]; it is the same for every probe of one tick, while the
      list of enumerated paths is a separate input: a path can be listed
      and gone when it is probed. *)

From Stdlib Require Import ZArith String Ascii.
From stdpp Require Import base tactics option list strings gmap.

Local Open Scope Z_scope.
Local Open Scope string_scope.

(** ** Exceptions and the state-and-exception monad *)

Inductive exn : Type :=
  | IndexError
  | KeyError
  | IOError
  | OSError
  | AttributeError
  | UnpicklingError
  | OutOfFuel.  (* not a Python exception: the bound of [read_loop] was hit *)

Inductive outcome (A : Type) : Type :=
  | Ok (a : A)
  | Raise (e : exn).
Arguments Ok {A} a.
Arguments Raise {A} e.

Definition M (S A : Type) : Type := S → outcome A * S.

Definition ret {S A : Type} (a : A) : M S A := λ s, (Ok a, s).

Definition bind {S A B : Type} (m : M S A) (k : A → M S B) : M S B :=
  λ s, match m s with
       | (Ok a, s') => k a s'
       | (Raise e, s') => (Raise e, s')
       end.

Definition raise {S A : Type} (e : exn) : M S A := λ s, (Raise e, s).

Definition gets {S A : Type} (f : S → A) : M S A := λ s, (Ok (f s), s).

Definition modify {S : Type} (f : S → S) : M S unit := λ s, (Ok tt, f s).

Notation "x <- m ;; k" := (bind m (λ x, k))
  (at level 20, m at level 99, k at level 200, only parsing).
Notation "' x <- m ;; k" := (bind m (λ x, k))
  (at level 20, x pattern, m at level 99, k at level 200, only parsing).
Notation "m ;; k" := (bind m (λ _, k))
  (at level 100, k at level 200, only parsing, right associativity).

(** [for x in l: body x] *)
Fixpoint for_each {S A : Type} (l : list A) (body : A → M S unit) : M S unit :=
  match l with
  | [] => ret tt
  | x :: l' => body x ;; for_each l' body
  end.

(** ** Python strings *)

(** [s[:n]] *)
Fixpoint take_str (n : nat) (s : string) : string :=
  match n, s with
  | S n', String c s' => String c (take_str n' s')
  | _, _ => ""
  end.

(** [s[n:]] *)
Fixpoint drop_str (n : nat) (s : string) : string :=
  match n, s with
  | S n', String _ s' => drop_str n' s'
  | _, _ => s
  end.

(** [s.replace(old, new)] for one-character [old] and [new] *)
Fixpoint replace_char (old new : ascii) (s : string) : string :=
  match s with
  | "" => ""
  | String c s' =>
      String (if Ascii.eqb c old then new else c) (replace_char old new s')
  end.

(** ** The library and the filesystem *)

Class Platform : Type := {
  (** [hashlib.md5(data).digest()] *)
  md5_digest : string → string;
  (** [os.path.join] *)
  os_path_join : string → string → string;
  (** [d.values()]: in Python 2 a fresh list, in an order the language does
      not fix *)
  dict_values : ∀ {A : Type}, gmap string A → list A;
  dict_values_perm : ∀ (A : Type) (d : gmap string A),
    dict_values d ≡ₚ (map_to_list d).*2;
}.

(** What [open (p, "rb")] gives: the bytes of the file and, when reading
    fails partway, the number of [read] calls that succeed before the one
    that raises [IOError]. *)
Record FileData : Type := {
  data : string;
  read_error : option nat;
}.

Record FileSystem : Type := {
  islink : string → bool;             (* os.path.islink *)
  isfile : string → bool;             (* os.path.isfile *)
  isdir : string → bool;              (* os.path.isdir *)
  st_mtime : string → option Z;       (* os.stat (p).st_mtime; None: OSError *)
  open_rb : string → option FileData; (* open (p, "rb"); None: IOError *)
}.

(** An open file object. *)
Record FileHandle : Type := {
  rest : string;
  reads_left : option nat;
}.

Definition fopen (fd : FileData) : FileHandle :=
  {| rest := data fd; reads_left := read_error fd |}.

(** [fs.read (n)]: [None] stands for [IOError]. *)
Definition fread (n : nat) (fh : FileHandle) : option (string * FileHandle) :=
  match reads_left fh with
  | Some O => None
  | Some (S k) =>
      Some (take_str n (rest fh),
            {| rest := drop_str n (rest fh); reads_left := Some k |})
  | None =>
      Some (take_str n (rest fh),
            {| rest := drop_str n (rest fh); reads_left := None |})
  end.

(** The loop of [hashfile]; [m] is what the md5 object has been fed.
<<
    while True:
        block = fs.read (32)
        if block == "": break
        m.update (block)
>> *)
Fixpoint read_loop (fuel : nat) (fh : FileHandle) (m : string) : outcome string :=
  match fuel with
  | O => Raise OutOfFuel
  | S fuel' =>
      match fread 32 fh with
      | None => Raise IOError
      | Some (block, fh') =>
          if decide (block = "") then Ok m
          else read_loop fuel' fh' (m +:+ block)
      end
  end.

(** ** class TrackedItem *)

Module TrackedItem.

(** The values of [itemtype] other than [None]. *)
Inductive kind : Type := link | file | dir.

#[global] Instance kind_eq_dec : EqDecision kind.
Proof. solve_decision. Defined.

(** [ct], the parenting ChangeTracker, is only ever used for [ct.path],
    which no method assigns after the constructor; the back-reference is
    the root path of the owner, or [None] once [savestate] cut it. *)
Record t : Type := mk {
  path : string;
  ct : option string;
  oldpath : option string;
  itemtype : option kind;
  hash : option string;
  modtime : option Z;
}.

#[global] Instance t_eq_dec : EqDecision t.
Proof. solve_decision. Defined.

Definition set_path (v : string) (i : t) : t :=
  mk v (ct i) (oldpath i) (itemtype i) (hash i) (modtime i).
Definition set_ct (v : option string) (i : t) : t :=
  mk (path i) v (oldpath i) (itemtype i) (hash i) (modtime i).
Definition set_oldpath (v : option string) (i : t) : t :=
  mk (path i) (ct i) v (itemtype i) (hash i) (modtime i).
Definition set_itemtype (v : option kind) (i : t) : t :=
  mk (path i) (ct i) (oldpath i) v (hash i) (modtime i).
Definition set_hash (v : option string) (i : t) : t :=
  mk (path i) (ct i) (oldpath i) (itemtype i) v (modtime i).
Definition set_modtime (v : option Z) (i : t) : t :=
  mk (path i) (ct i) (oldpath i) (itemtype i) (hash i) v.

(** The state a method runs in: the object [self] and the number of file
    objects that are open. *)
Record frame : Type := Frame {
  self : t;
  handles : nat;
}.

Definition assign (f : t → t) : M frame unit :=
  modify (λ fr, Frame (f (self fr)) (handles fr)).

Definition on_handles (f : nat → nat) : M frame unit :=
  modify (λ fr, Frame (self fr) (f (handles fr))).

(** [newmodtime > self.modtime]; in Python 2 [None] is below every
    number. *)
Definition newer (newmodtime : Z) (old : option Z) : bool :=
  match old with
  | None => true
  | Some o => bool_decide (o < newmodtime)
  end.

Section Methods.
Context `{Platform}.
Variable fs : FileSystem.

Definition abspath : M frame string :=
  i <- gets self ;;
  match ct i with
  | Some root => ret (os_path_join root (path i))
  | None => raise AttributeError
  end.

Definition hashfile : M frame unit :=
  i <- gets self ;;
  if decide (itemtype i = Some file) then
    a <- abspath ;;
    match open_rb fs a with
    | None => raise IOError
    | Some fd =>
        on_handles S ;;
        match read_loop (S (String.length (data fd))) (fopen fd) "" with
        | Raise e => raise e
        | Ok m =>
            assign (set_hash (Some (md5_digest m))) ;;
            on_handles pred
        end
    end
  else assign (set_hash None).

Definition update (init dohash : bool) : M frame bool :=
  a <- abspath ;;
  (if islink fs a then assign (set_itemtype (Some link))
   else
     a <- abspath ;;
     if isfile fs a then assign (set_itemtype (Some file))
     else
       a <- abspath ;;
       if isdir fs a then assign (set_itemtype (Some dir))
       else assign (set_itemtype None)) ;;
  (if dohash then hashfile else assign (set_hash None)) ;;
  i <- gets self ;;
  if decide (itemtype i = Some file) then
    a <- abspath ;;
    match st_mtime fs a with
    | None => raise OSError
    | Some newmodtime =>
        if init then
          assign (set_modtime (Some newmodtime)) ;; ret false
        else if newer newmodtime (modtime i) then
          assign (set_modtime (Some newmodtime)) ;; ret true
        else ret false
    end
  else
    assign (set_modtime None) ;; ret false.

Definition move (newpath : string) (newhash : option string) : M frame unit :=
  i <- gets self ;;
  if decide (newpath ≠ path i) then
    assign (set_oldpath (Some (path i))) ;;
    assign (set_path newpath) ;;
    match newhash with
    | None => update false true ;; ret tt
    | Some _ =>
        update false false ;;
        assign (set_hash newhash)
    end
  else ret tt.

(** [TrackedItem (path, ct)]: the attributes [itemtype], [hash] and
    [modtime] do not exist before [update (init=True)] assigns them,
    and it reads none of them first. *)
Definition __init__ (path0 : string) (ct0 : string) : M frame unit :=
  assign (λ _, mk path0 (Some ct0) None None None None) ;;
  update true true ;;
  ret tt.

Definition blank : t := mk "" None None None None None.

End Methods.

(** [__cmp__]; [other] is an item, or [None] for an object of another
    class. On Python 2 strings [<] and [>] compare byte by byte. *)
Definition __cmp__ (self : t) (other : option t) : Z :=
  match other with
  | None => 1
  | Some other =>
      if String.ltb (path self) (path other) then -1
      else if String.ltb (path other) (path self) then 1
      else 0
  end.

End TrackedItem.

(** ** pickle and the file that holds the saved state *)

Class Pickler : Type := {
  pickled : Type;
  (** [pickle.dumps] *)
  pickle_dumps : gmap string TrackedItem.t → pickled;
  (** [pickle.loads]; [None]: the bytes are not a pickle *)
  pickle_loads : pickled → option (gmap string TrackedItem.t);
  pickle_loads_dumps : ∀ d, pickle_loads (pickle_dumps d) = Some d;
}.

(** The files [savestate] and [loadstate] open: what each name holds, and
    whether [open] in mode "rb" or "wb" succeeds on it. *)
Record Disk `{Pickler} : Type := {
  files : gmap string pickled;
  readable : string → bool;
  writable : string → bool;
}.

(** ** class ChangeTracker *)

Module ChangeTracker.

Record t : Type := mk {
  path : string;
  handler : bool;   (* whether [self.handler] is an object, not [None] *)
  allitems : gmap string TrackedItem.t;
  running : bool;
  suspended : bool;
}.

Definition set_allitems (v : gmap string TrackedItem.t) (c : t) : t :=
  mk (path c) (handler c) v (running c) (suspended c).

(** The callbacks [update] makes on the handler. *)
Inductive call : Type :=
  | on_removed (i : TrackedItem.t)
  | on_added (i : TrackedItem.t)
  | on_changed (i : TrackedItem.t)
  | on_moved (i : TrackedItem.t).

(** The state of one run of [update]: [self.allitems], the four local
    dicts, the open file objects and the callbacks made so far. The four
    dicts at the end of the run are the event sets of the tick. *)
Record state : Type := State {
  items : gmap string TrackedItem.t;
  removeditems : gmap string TrackedItem.t;
  addeditems : gmap string TrackedItem.t;
  changeditems : gmap string TrackedItem.t;
  moveditems : gmap string TrackedItem.t;
  handles : nat;
  calls : list call;
}.

Definition on_items (f : gmap string TrackedItem.t → gmap string TrackedItem.t)
    (s : state) : state :=
  State (f (items s)) (removeditems s) (addeditems s) (changeditems s)
        (moveditems s) (handles s) (calls s).
Definition on_removeditems (f : gmap string TrackedItem.t → gmap string TrackedItem.t)
    (s : state) : state :=
  State (items s) (f (removeditems s)) (addeditems s) (changeditems s)
        (moveditems s) (handles s) (calls s).
Definition on_addeditems (f : gmap string TrackedItem.t → gmap string TrackedItem.t)
    (s : state) : state :=
  State (items s) (removeditems s) (f (addeditems s)) (changeditems s)
        (moveditems s) (handles s) (calls s).
Definition on_changeditems (f : gmap string TrackedItem.t → gmap string TrackedItem.t)
    (s : state) : state :=
  State (items s) (removeditems s) (addeditems s) (f (changeditems s))
        (moveditems s) (handles s) (calls s).
Definition on_moveditems (f : gmap string TrackedItem.t → gmap string TrackedItem.t)
    (s : state) : state :=
  State (items s) (removeditems s) (addeditems s) (changeditems s)
        (f (moveditems s)) (handles s) (calls s).
Definition set_handles (n : nat) (s : state) : state :=
  State (items s) (removeditems s) (addeditems s) (changeditems s)
        (moveditems s) n (calls s).
Definition notify (c : call) (s : state) : state :=
  State (items s) (removeditems s) (addeditems s) (changeditems s)
        (moveditems s) (handles s) (calls s ++ [c]).

(** [del d [k]] on the dict read by [get] and written by [on_d] *)
Definition del (get : state → gmap string TrackedItem.t)
    (on_d : (gmap string TrackedItem.t → gmap string TrackedItem.t) → state → state)
    (k : string) : M state unit :=
  d <- gets get ;;
  match d !! k with
  | Some _ => modify (on_d (delete k))
  | None => raise KeyError
  end.

(** Runs a method on an object that no dict holds (a new object, or one
    just deleted from the dicts that held it); the method's result comes
    with the object as the method left it. *)
Definition call_on {A : Type} (i : TrackedItem.t) (m : M TrackedItem.frame A)
    : M state (A * TrackedItem.t) :=
  λ s, match m (TrackedItem.Frame i (handles s)) with
       | (Ok a, fr) =>
           (Ok (a, TrackedItem.self fr), set_handles (TrackedItem.handles fr) s)
       | (Raise e, fr) =>
           (Raise e, set_handles (TrackedItem.handles fr) s)
       end.

(** Runs a method on the object [self.allitems [k]]: the object is
    mutated in place, also when the method raises. *)
Definition call_at {A : Type} (k : string) (i : TrackedItem.t)
    (m : M TrackedItem.frame A) : M state (A * TrackedItem.t) :=
  λ s, match m (TrackedItem.Frame i (handles s)) with
       | (Ok a, fr) =>
           (Ok (a, TrackedItem.self fr),
            on_items (insert k (TrackedItem.self fr))
              (set_handles (TrackedItem.handles fr) s))
       | (Raise e, fr) =>
           (Raise e,
            on_items (insert k (TrackedItem.self fr))
              (set_handles (TrackedItem.handles fr) s))
       end.

Section Methods.
Context `{Platform}.
Variable fs : FileSystem.

(** Lines 143-144: the path below the root, with forward slashes. *)
Definition relative (root itempath : string) : string :=
  replace_char "\" "/" (drop_str (String.length root + 1) itempath).

(** The body of the first loop of [update], for one enumerated path. *)
Definition scan (root : string) (itempath : string) : M state unit :=
  let itempath := relative root itempath in
  r <- gets removeditems ;;
  (if decide (is_Some (r !! itempath))
   then modify (on_removeditems (delete itempath)) else ret tt) ;;
  a <- gets items ;;
  match a !! itempath with
  | None =>
      '(_, item) <- call_on TrackedItem.blank
                      (TrackedItem.__init__ fs itempath root) ;;
      modify (on_items (insert itempath item)) ;;
      modify (on_addeditems (insert itempath item))
  | Some item =>
      '(changed, item) <- call_at itempath item
                            (TrackedItem.update fs false true) ;;
      if changed then modify (on_changeditems (insert itempath item))
      else ret tt
  end.

(** The body of the second loop, for one value of [removeditems]. *)
Definition detect_move (addedhashes : list (option string))
    (removeditem : TrackedItem.t) : M state unit :=
  if decide (TrackedItem.itemtype removeditem = Some TrackedItem.file
             ∧ TrackedItem.hash removeditem ∈ addedhashes) then
    ad <- gets addeditems ;;
    match filter (λ i, TrackedItem.hash i = TrackedItem.hash removeditem)
            (dict_values ad) with
    | [] => raise IndexError
    | addeditem :: _ =>
        del addeditems on_addeditems (TrackedItem.path addeditem) ;;
        del removeditems on_removeditems (TrackedItem.path removeditem) ;;
        del items on_items (TrackedItem.path removeditem) ;;
        '(_, moveditem) <- call_on removeditem
            (TrackedItem.move fs (TrackedItem.path addeditem)
               (TrackedItem.hash addeditem)) ;;
        modify (on_items (insert (TrackedItem.path moveditem) moveditem)) ;;
        modify (on_moveditems (insert (TrackedItem.path moveditem) moveditem))
    end
  else ret tt.

(** The body of the third loop. *)
Definition drop_removed (has_handler : bool) (removeditem : TrackedItem.t)
    : M state unit :=
  (if has_handler then modify (notify (on_removed removeditem)) else ret tt) ;;
  del items on_items (TrackedItem.path removeditem).

(** [update]; [listing] is what [recursive_list (self.path)] yields. *)
Definition update_body (self : t) (listing : list string) : M state unit :=
  for_each listing (scan (path self)) ;;
  ad <- gets addeditems ;;
  let addedhashes := TrackedItem.hash <$> dict_values ad in
  r <- gets removeditems ;;
  for_each (dict_values r) (detect_move addedhashes) ;;
  r <- gets removeditems ;;
  for_each (dict_values r) (drop_removed (handler self)) ;;
  if handler self then
    ad <- gets addeditems ;;
    for_each (dict_values ad) (λ i, modify (notify (on_added i))) ;;
    ch <- gets changeditems ;;
    for_each (dict_values ch) (λ i, modify (notify (on_changed i))) ;;
    mv <- gets moveditems ;;
    for_each (dict_values mv) (λ i, modify (notify (on_moved i)))
  else ret tt.

Definition enter (self : t) (open_files : nat) : state :=
  State (allitems self) (allitems self) ∅ ∅ ∅ open_files [].

Definition update (self : t) (listing : list string) (open_files : nat)
    : outcome unit * state :=
  update_body self listing (enter self open_files).

End Methods.

Section Persistence.
Context `{Platform} `{Pickler}.

Definition class_name : string := "ChangeTracker".

(** [{ i.path : copy.copy (i) for i in self.allitems.values() }] *)
Definition by_path (l : list TrackedItem.t) : gmap string TrackedItem.t :=
  foldl (λ d i, <[TrackedItem.path i := i]> d) ∅ l.

Definition savestate (self : t) (filename : option string) (d : Disk)
    : outcome unit * Disk :=
  let pickleditems := by_path (dict_values (allitems self)) in
  let pickleditems := TrackedItem.set_ct None <$> pickleditems in
  let pickleditems := pickle_dumps pickleditems in
  let filename := default class_name filename in
  if writable d filename then
    (Ok tt, {| files := <[filename := pickleditems]> (files d);
               readable := readable d; writable := writable d |})
  else (Raise IOError, d).

Definition loadstate (self : t) (filename : option string) (d : Disk)
    : outcome unit * t :=
  let filename := default class_name filename in
  match (if readable d filename then files d !! filename else None) with
  | Some pickleditems =>
      match pickle_loads pickleditems with
      | Some loaded =>
          (Ok tt,
           set_allitems (TrackedItem.set_ct (Some (path self)) <$> loaded) self)
      | None => (Raise UnpicklingError, self)
      end
  | None => (Ok tt, self)   (* except IOError: pass *)
  end.

End Persistence.

End ChangeTracker.

(** ** recursive_list *)

Section Enumerator.
Context `{Platform}.
Variable fs : FileSystem.
(** [os.listdir]; [None]: [OSError] *)
Variable listdir : string → option (list string).

(** A generator run to its end is the list of what it yielded and the
    exception that ended it, if one did. The loop over the names of one
    directory, with the recursive call as [descend]: *)
Fixpoint for_itemnames (descend : string → list string * option exn)
    (rootpath : string) (itemnames : list string) : list string * option exn :=
  match itemnames with
  | [] => ([], None)
  | itemname :: itemnames' =>
      let itempath := os_path_join rootpath itemname in
      let '(below, raised) :=
        if negb (islink fs itempath) && isdir fs itempath
        then descend itempath else ([], None) in
      match raised with
      | Some e => (itempath :: below, Some e)
      | None =>
          let '(later, raised') := for_itemnames descend rootpath itemnames' in
          (itempath :: below ++ later, raised')
      end
  end.

(** [fuel] bounds the depth of the recursion. *)
Fixpoint recursive_list (fuel : nat) (rootpath : string)
    : list string * option exn :=
  match fuel with
  | O => ([], Some OutOfFuel)
  | S fuel' =>
      match listdir rootpath with
      | None => ([], Some OSError)
      | Some itemnames =>
          for_itemnames (recursive_list fuel') rootpath itemnames
      end
  end.

End Enumerator.
(** ** Vocabulary of the statements *)

(** Every item is stored under its own path. *)
Definition coherent (d : gmap string TrackedItem.t) : Prop :=
  map_Forall (λ k i, TrackedItem.path i = k) d.

(** Every item refers back to the tracker rooted at [root]. *)
Definition owned (root : string) (d : gmap string TrackedItem.t) : Prop :=
  map_Forall (λ _ i, TrackedItem.ct i = Some root) d.


Section Vocabulary.
Context `{Platform}.
Variable fs : FileSystem.

(** The probes of [TrackedItem.update], in the order it asks them. *)
Definition classify (a : string) : option TrackedItem.kind :=
  if islink fs a then Some TrackedItem.link
  else if isfile fs a then Some TrackedItem.file
  else if isdir fs a then Some TrackedItem.dir
  else None.

(** What the md5 object has been fed when [hashfile] reads [a] to its
    end. *)
Definition digest_input (a : string) : outcome string :=
  match open_rb fs a with
  | None => Raise IOError
  | Some fd => read_loop (S (String.length (data fd))) (fopen fd) ""
  end.

(** [TrackedItem.update] in closed form, proved equal to it below
    ([update_refreshed]). *)
Definition refreshed (init dohash : bool) (i : TrackedItem.t) (h : nat)
    : outcome bool * TrackedItem.frame :=
  match TrackedItem.ct i with
  | None => (Raise AttributeError, TrackedItem.Frame i h)
  | Some root =>
      let a := os_path_join root (TrackedItem.path i) in
      let i1 := TrackedItem.set_itemtype (classify a) i in
      if decide (classify a = Some TrackedItem.file) then
        let hashing :=
          if dohash then
            match digest_input a with
            | Ok m => Ok (Some (md5_digest m))
            | Raise e => Raise e
            end
          else Ok None in
        match hashing with
        | Raise e =>
            (Raise e, TrackedItem.Frame i1 (match open_rb fs a with Some _ => S h | None => h end))
        | Ok hv =>
            let i2 := TrackedItem.set_hash hv i1 in
            match st_mtime fs a with
            | None => (Raise OSError, TrackedItem.Frame i2 h)
            | Some t =>
                if init then
                  (Ok false, TrackedItem.Frame (TrackedItem.set_modtime (Some t) i2) h)
                else if TrackedItem.newer t (TrackedItem.modtime i) then
                  (Ok true, TrackedItem.Frame (TrackedItem.set_modtime (Some t) i2) h)
                else (Ok false, TrackedItem.Frame i2 h)
            end
        end
      else
        (Ok false,
         TrackedItem.Frame
           (TrackedItem.set_modtime None (TrackedItem.set_hash None i1)) h)
  end.

(** An item that a refresh leaves as it is and reports as unchanged. *)
Definition settled (i : TrackedItem.t) : Prop :=
  ∀ h, TrackedItem.update fs false true (TrackedItem.Frame i h)
       = (Ok false, TrackedItem.Frame i h).

End Vocabulary.

(** The invariant of the first two loops of [ChangeTracker.update], for a
    run that started from the snapshot [S0] with the enumerated paths [L]
    (relative to [root]). *)
Section Invariant.
Context `{Platform}.
Variable fs : FileSystem.
Variable root : string.
Variable S0 : gmap string TrackedItem.t.
Variable L : list string.

Record reconciling (s : ChangeTracker.state) : Prop := {
  (** the snapshot stays keyed by path and owned by the tracker *)
  rec_coherent : coherent (ChangeTracker.items s);
  rec_owned : owned root (ChangeTracker.items s);
  (** a tentative removal is an untouched item of the old snapshot *)
  rec_removed : ∀ k i,
    ChangeTracker.removeditems s !! k = Some i →
    S0 !! k = Some i ∧ ChangeTracker.items s !! k = Some i;
  (** every other item has been enumerated and refreshed *)
  rec_settled : ∀ k i,
    ChangeTracker.items s !! k = Some i →
    ChangeTracker.removeditems s !! k = None →
    settled fs i ∧ k ∈ L;
  (** an added item is a new key of the snapshot *)
  rec_added : ∀ k i,
    ChangeTracker.addeditems s !! k = Some i →
    ChangeTracker.items s !! k = Some i
    ∧ ChangeTracker.removeditems s !! k = None
    ∧ S0 !! k = None;
  (** where an item of the snapshot comes from, and its [oldpath] *)
  rec_origin : ∀ k i,
    ChangeTracker.items s !! k = Some i →
    (ChangeTracker.moveditems s !! k = Some i
     ∧ S0 !! k = None
     ∧ ∃ q i0, S0 !! q = Some i0 ∧ TrackedItem.oldpath i = Some q
               ∧ TrackedItem.itemtype i0 = Some TrackedItem.file
               ∧ (is_Some (TrackedItem.hash i0) →
                  TrackedItem.hash i = TrackedItem.hash i0))
    ∨ (ChangeTracker.moveditems s !! k = None
       ∧ ((∃ i0, S0 !! k = Some i0
                 ∧ TrackedItem.oldpath i = TrackedItem.oldpath i0)
          ∨ (ChangeTracker.addeditems s !! k = Some i
             ∧ TrackedItem.oldpath i = None)));
}.

(** During the first loop: no item has left the snapshot, none has been
    moved. *)
Definition scanning (s : ChangeTracker.state) : Prop :=
  reconciling s
  ∧ ChangeTracker.moveditems s = ∅
  ∧ ∀ k, is_Some (S0 !! k) → is_Some (ChangeTracker.items s !! k).

(** After the first loop: every enumerated path is in the snapshot and is
    no tentative removal. *)
Definition listed (s : ChangeTracker.state) : Prop :=
  ∀ k, k ∈ L →
    is_Some (ChangeTracker.items s !! k)
    ∧ ChangeTracker.removeditems s !! k = None.

End Invariant.

(** The state after the last three loops of [ChangeTracker.update], which
    report the added, changed and moved items to the handler. *)
Definition reported `{Platform} (self : ChangeTracker.t) (s : ChangeTracker.state)
    : ChangeTracker.state :=
  if ChangeTracker.handler self then
    ChangeTracker.State (ChangeTracker.items s) (ChangeTracker.removeditems s)
      (ChangeTracker.addeditems s) (ChangeTracker.changeditems s)
      (ChangeTracker.moveditems s) (ChangeTracker.handles s)
      (((ChangeTracker.calls s
         ++ (ChangeTracker.on_added <$> dict_values (ChangeTracker.addeditems s)))
        ++ (ChangeTracker.on_changed <$> dict_values (ChangeTracker.changeditems s)))
       ++ (ChangeTracker.on_moved <$> dict_values (ChangeTracker.moveditems s)))
  else s.

(** ** What [recursive_list] yields *)

(** [p] is an entry of [rootpath], or of a directory among [l] that is no
    symbolic link. *)
Definition entry_below `{Platform} (fs : FileSystem)
    (listdir : string → option (list string)) (rootpath : string)
    (l : list string) (p : string) : Prop :=
  ∃ d itemname itemnames,
    p = os_path_join d itemname
    ∧ listdir d = Some itemnames
    ∧ itemname ∈ itemnames
    ∧ (d = rootpath ∨ (d ∈ l ∧ islink fs d = false ∧ isdir fs d = true)).

(** [d] can be listed and each of its entries is among [l]. *)
Definition entries_in `{Platform} (listdir : string → option (list string))
    (d : string) (l : list string) : Prop :=
  ∃ itemnames,
    listdir d = Some itemnames
    ∧ ∀ itemname, itemname ∈ itemnames → os_path_join d itemname ∈ l.

(** ** Concrete platforms and filesystems, to run the statements on *)

(** Paths joined with a slash, a digest that spells out its input, dicts
    listed in the order of [map_to_list]. *)
Definition posix : Platform := {|
  md5_digest := λ s, "md5:" +:+ s;
  os_path_join := λ a b, a +:+ "/" +:+ b;
  dict_values := λ A d, (map_to_list d).*2;
  dict_values_perm := λ A d, Permutation_refl _;
|}.

(** A pickle that is the pickled dict itself. *)
Definition identity_pickler : Pickler := {|
  pickled := gmap string TrackedItem.t;
  pickle_dumps := λ d, d;
  pickle_loads := λ d, Some d;
  pickle_loads_dumps := λ d, eq_refl;
|}.

(** A disk on which every name can be opened for writing and no file
    exists yet. *)
Definition empty_disk : @Disk identity_pickler :=
  @Build_Disk identity_pickler ∅ (λ _, true) (λ _, true).


(** A filesystem with one regular file [p]; reading it fails at the read
    call [err], if any. *)
Definition one_file (p content : string) (mtime : Z) (err : option nat)
    : FileSystem := {|
  islink := λ _, false;
  isfile := λ q, bool_decide (q = p);
  isdir := λ _, false;
  st_mtime := λ q, if bool_decide (q = p) then Some mtime else None;
  open_rb := λ q,
    if bool_decide (q = p)
    then Some {| data := content; read_error := err |} else None;
|}.

(** A file item of the tracker rooted at [/r]. *)
Definition file_item (p : string) (old : option string) (content : string)
    (mtime : Z) : TrackedItem.t :=
  TrackedItem.mk p (Some "/r") old (Some TrackedItem.file)
    (Some ("md5:" +:+ content)) (Some mtime).

(** The tracker rooted at [/r], with a handler, holding [d]. *)
Definition tracker (d : gmap string TrackedItem.t) : ChangeTracker.t :=
  ChangeTracker.mk "/r" true d true false.

(** The directory [/r] with a file [a], a directory [d] that holds a file
    [b], and a symbolic link [l] to a directory. *)
Definition small_tree : FileSystem := {|
  islink := λ q, bool_decide (q = "/r/l");
  isfile := λ q, bool_decide (q = "/r/a" ∨ q = "/r/d/b");
  isdir := λ q, bool_decide (q = "/r" ∨ q = "/r/d" ∨ q = "/r/l");
  st_mtime := λ _, Some 0;
  open_rb := λ _, None;
|}.

(** [os.listdir] on that tree; [behind] is the answer for the link. *)
Definition small_tree_listdir (behind : option (list string)) (q : string)
    : option (list string) :=
  if bool_decide (q = "/r") then Some ["a"; "d"; "l"]
  else if bool_decide (q = "/r/d") then Some ["b"]
  else if bool_decide (q = "/r/l") then behind
  else None.
(** * Properties *)

(** ** The monad *)

Lemma bind_Ok {S A B : Type} (m : M S A) (k : A → M S B) s b s' :
  bind m k s = (Ok b, s') →
  ∃ a s1, m s = (Ok a, s1) ∧ k a s1 = (Ok b, s').
Proof.
  unfold bind. destruct (m s) as [[a|e] s1]; [eauto | discriminate].
Qed.

Lemma bind_run {S A B : Type} (m : M S A) (k : A → M S B) s r s' :
  bind m k s = (r, s') →
  (∃ a s1, m s = (Ok a, s1) ∧ k a s1 = (r, s'))
  ∨ (∃ e, m s = (Raise e, s') ∧ r = Raise e).
Proof.
  unfold bind. destruct (m s) as [[a|e] s1]; [eauto | ].
  intros [= <- <-]. eauto.
Qed.



(** A run is its outcome together with the state it leaves. *)
Lemma run_eq {S A : Type} (x : outcome A * S) (r : outcome A) :
  x.1 = r → x = (r, x.2).
Proof. destruct x as [r' s]. simpl. by intros ->. Qed.

(** A property of the state that every run of the body keeps, however it
    ends, holds after the loop, however it ends. *)
Lemma for_each_inv {S A : Type} (I : S → Prop) (l : list A) (body : A → M S unit) :
  (∀ x s r s', x ∈ l → I s → body x s = (r, s') → I s') →
  ∀ s r s', I s → for_each l body s = (r, s') → I s'.
Proof.
  induction l as [|x l IH]; intros Hbody s r s' Hs; simpl.
  - by intros [= _ <-].
  - intros Hrun. apply bind_run in Hrun as [(a & s1 & Hx & Hl) | (e & Hx & _)].
    + eapply IH; [ | | exact Hl].
      * intros y t r' t' Hy. apply Hbody. by right.
      * eapply Hbody; [by left | exact Hs | exact Hx].
    + eapply Hbody; [by left | exact Hs | exact Hx].
Qed.

(** For a loop that ends normally it is enough that the runs of the body
    that end normally keep the property. *)
Lemma for_each_ok {S A : Type} (I : S → Prop) (l : list A) (body : A → M S unit) :
  (∀ x s s', x ∈ l → I s → body x s = (Ok tt, s') → I s') →
  ∀ s s', I s → for_each l body s = (Ok tt, s') → I s'.
Proof.
  induction l as [|x l IH]; intros Hbody s s' Hs; simpl.
  - by intros [= <-].
  - intros Hrun. apply bind_Ok in Hrun as ([] & s1 & Hx & Hl).
    eapply IH; [ | | exact Hl].
    + intros y t t' Hy. apply Hbody. by right.
    + eapply Hbody; [by left | exact Hs | exact Hx].
Qed.

(** When the loop ends normally, so did every run of its body; a property
    that a run of the body on [x] sets up and the later runs keep holds at
    the end for every [x]. *)
Lemma for_each_post {S A : Type} (Q : A → S → Prop) (l : list A)
    (body : A → M S unit) :
  (∀ x s s', x ∈ l → body x s = (Ok tt, s') → Q x s') →
  (∀ x y s s', x ∈ l → y ∈ l → Q x s → body y s = (Ok tt, s') → Q x s') →
  ∀ s s', for_each l body s = (Ok tt, s') → ∀ x, x ∈ l → Q x s'.
Proof.
  induction l as [|y l IH]; intros Hset Hkeep s s' Hrun x Hx.
  - by apply elem_of_nil in Hx.
  - simpl in Hrun. apply bind_Ok in Hrun as ([] & s1 & Hy & Hl).
    apply elem_of_cons in Hx as [-> | Hx].
    + assert (Hq : Q y s1) by (eapply Hset; [by left | exact Hy]).
      clear Hset IH Hy. revert s1 Hl Hq.
      assert (Hsub : ∀ z, z ∈ l → z ∈ y :: l) by (intros; by right).
      revert Hsub. generalize l at 1 3 as l0.
      induction l0 as [|z l0 IHl]; intros Hsub s1 Hl Hq; simpl in Hl.
      * by injection Hl as <-.
      * apply bind_Ok in Hl as ([] & s2 & Hz & Hl).
        eapply IHl; [ | exact Hl | ].
        -- intros w Hw. apply Hsub. by right.
        -- eapply Hkeep; [by left | apply Hsub; by left | exact Hq | exact Hz].
    + eapply IH; [ | | exact Hl | exact Hx].
      * intros z t t' Hz. apply Hset. by right.
      * intros z w t t' Hz Hw. apply Hkeep; by right.
Qed.

(** ** Strings and the reading loop *)

Lemma append_cons c (a b : string) : String c a +:+ b = String c (a +:+ b).
Proof. reflexivity. Qed.

Lemma take_drop_str n s : take_str n s +:+ drop_str n s = s.
Proof.
  revert s. induction n as [|n IH]; intros [|c s]; try done.
  cbn [take_str drop_str]. by rewrite append_cons, IH.
Qed.

Lemma take_str_empty n s : take_str (S n) s = "" → s = "".
Proof. by destruct s. Qed.

Lemma drop_str_length n s :
  s ≠ "" → (String.length (drop_str (S n) s) < String.length s)%nat.
Proof.
  destruct s as [|c s]; [done | intros _; simpl].
  revert s. induction n as [|n IH]; intros s; simpl; [lia | ].
  destruct s as [|c' s]; simpl; [lia | ]. specialize (IH s). lia.
Qed.

Lemma append_assoc_str (a b c : string) : (a +:+ b) +:+ c = a +:+ (b +:+ c).
Proof. induction a as [|x a IH]; [done | by rewrite !append_cons, IH]. Qed.

Lemma append_empty_r (a : string) : a +:+ "" = a.
Proof. induction a as [|x a IH]; [done | by rewrite append_cons, IH]. Qed.

(** Without a read error the loop ends before the bound and the md5 object
    has been fed the whole file, block by block. *)
Lemma read_loop_all fuel s m :
  (String.length s < fuel)%nat →
  read_loop fuel {| rest := s; reads_left := None |} m = Ok (m +:+ s).
Proof.
  revert s m. induction fuel as [|fuel IH]; intros s m Hlen; [lia | ].
  cbn [read_loop fread reads_left rest]. case_decide as Hblock.
  - apply (take_str_empty 31) in Hblock. subst s. by rewrite append_empty_r.
  - assert (Hs : s ≠ "") by (intros ->; by apply Hblock).
    rewrite IH.
    + by rewrite append_assoc_str, (take_drop_str 32).
    + pose proof (drop_str_length 31 s Hs). lia.
Qed.

(** The bound [S (length data)] is never what stops the loop. *)
Lemma read_loop_fuel fuel fh m :
  (String.length (rest fh) < fuel)%nat →
  read_loop fuel fh m ≠ Raise OutOfFuel.
Proof.
  revert fh m. induction fuel as [|fuel IH]; intros [s k] m Hlen;
    [cbn in Hlen; lia | ].
  cbn [rest] in Hlen.
  destruct k as [[|k]|]; cbn [read_loop fread reads_left rest]; try done.
  - case_decide as Hblock; [done | ].
    apply IH; cbn [rest].
    assert (Hs : s ≠ "") by (intros ->; by apply Hblock).
    pose proof (drop_str_length 31 s Hs). lia.
  - case_decide as Hblock; [done | ].
    apply IH; cbn [rest].
    assert (Hs : s ≠ "") by (intros ->; by apply Hblock).
    pose proof (drop_str_length 31 s Hs). lia.
Qed.




(** ** TrackedItem *)

Section ItemFacts.
Context `{Platform}.
Variable fs : FileSystem.

Local Opaque read_loop.

Lemma update_refreshed init dohash i h :
  TrackedItem.update fs init dohash (TrackedItem.Frame i h)
  = refreshed fs init dohash i h.
Proof.
  unfold refreshed, TrackedItem.update, TrackedItem.hashfile,
    TrackedItem.abspath, digest_input, classify.
  destruct i as [p c o k hv mt]. destruct c as [root|]; [ | done].
  unfold bind, gets, ret, raise, TrackedItem.assign, TrackedItem.on_handles,
    modify; simpl.
  destruct (islink fs _); simpl; [by destruct dohash | ].
  destruct (isfile fs _); simpl.
  - destruct dohash; simpl.
    + destruct (open_rb fs _) as [fd|]; simpl; [ | done].
      destruct (read_loop _ _ _) as [m|e]; simpl; [ | done].
      destruct (st_mtime fs _) as [t|]; simpl; [ | done].
      destruct init; simpl; [done | ].
      by destruct (TrackedItem.newer t mt).
    + destruct (st_mtime fs _) as [t|]; simpl; [ | done].
      destruct init; simpl; [done | ].
      by destruct (TrackedItem.newer t mt).
  - destruct (isdir fs _); simpl; by destruct dohash.
Qed.

Local Transparent read_loop.

(** A refresh assigns neither [path], [ct] nor [oldpath], however it
    ends. *)
Lemma update_keeps init dohash i h r fr :
  TrackedItem.update fs init dohash (TrackedItem.Frame i h) = (r, fr) →
  TrackedItem.path (TrackedItem.self fr) = TrackedItem.path i
  ∧ TrackedItem.ct (TrackedItem.self fr) = TrackedItem.ct i
  ∧ TrackedItem.oldpath (TrackedItem.self fr) = TrackedItem.oldpath i.
Proof.
  rewrite update_refreshed. unfold refreshed.
  repeat case_match; intros [= <- <-]; done.
Qed.

(** A refresh that returns has closed the file it opened. *)
Lemma update_handles init dohash i h b fr :
  TrackedItem.update fs init dohash (TrackedItem.Frame i h) = (Ok b, fr) →
  TrackedItem.handles fr = h.
Proof.
  rewrite update_refreshed. unfold refreshed.
  repeat case_match; intros [= <- <-]; done.
Qed.

Lemma newer_irrefl t : TrackedItem.newer t (Some t) = false.
Proof. unfold TrackedItem.newer. apply bool_decide_eq_false. lia. Qed.

(** What it takes for an item to be settled. *)
Lemma settled_intro i root :
  TrackedItem.ct i = Some root →
  TrackedItem.itemtype i = classify fs (os_path_join root (TrackedItem.path i)) →
  (TrackedItem.itemtype i ≠ Some TrackedItem.file →
   TrackedItem.hash i = None ∧ TrackedItem.modtime i = None) →
  (TrackedItem.itemtype i = Some TrackedItem.file →
   ∃ m t, digest_input fs (os_path_join root (TrackedItem.path i)) = Ok m
          ∧ TrackedItem.hash i = Some (md5_digest m)
          ∧ st_mtime fs (os_path_join root (TrackedItem.path i)) = Some t
          ∧ TrackedItem.newer t (TrackedItem.modtime i) = false) →
  settled fs i.
Proof.
  intros Hct Hty Hother Hfile h. rewrite update_refreshed. unfold refreshed.
  destruct i as [p c o k hv mt]; simpl in *. subst c k.
  case_decide as Hk.
  - destruct (Hfile Hk) as (m & t & -> & -> & -> & ->).
    unfold TrackedItem.set_hash, TrackedItem.set_itemtype; simpl. done.
  - destruct (Hother Hk) as [-> ->]. done.
Qed.

Lemma settled_elim i root :
  settled fs i →
  TrackedItem.ct i = Some root →
  TrackedItem.itemtype i = classify fs (os_path_join root (TrackedItem.path i))
  ∧ (TrackedItem.itemtype i ≠ Some TrackedItem.file →
     TrackedItem.hash i = None ∧ TrackedItem.modtime i = None)
  ∧ (TrackedItem.itemtype i = Some TrackedItem.file →
     ∃ m t, digest_input fs (os_path_join root (TrackedItem.path i)) = Ok m
            ∧ TrackedItem.hash i = Some (md5_digest m)
            ∧ st_mtime fs (os_path_join root (TrackedItem.path i)) = Some t
            ∧ TrackedItem.newer t (TrackedItem.modtime i) = false).
Proof.
  intros Hs Hct. specialize (Hs O). rewrite update_refreshed in Hs.
  unfold refreshed in Hs. rewrite Hct in Hs.
  destruct i as [p c o k hv mt]; simpl in *. subst c.
  unfold TrackedItem.set_modtime, TrackedItem.set_hash,
    TrackedItem.set_itemtype in Hs; simpl in Hs.
  case_decide as Hk.
  - destruct (digest_input fs _) as [m|e]; [ | done].
    destruct (st_mtime fs _) as [t|]; [ | done].
    destruct (TrackedItem.newer t mt) eqn:Hn; [done | ].
    simplify_eq. split; [done | ]. split; [done | ]. eauto 10.
  - simplify_eq. split; [done | ]. split; [done | ].
    intros ?. congruence.
Qed.

(** A refresh with hashing that returns leaves the item settled. *)
Lemma update_settles init i h b fr :
  TrackedItem.update fs init true (TrackedItem.Frame i h) = (Ok b, fr) →
  settled fs (TrackedItem.self fr).
Proof.
  rewrite update_refreshed. unfold refreshed.
  destruct (TrackedItem.ct i) as [root|] eqn:Hct; [ | done].
  case_decide as Hk.
  - destruct (digest_input fs _) as [m|e] eqn:Hm; [ | done].
    destruct (st_mtime fs _) as [t|] eqn:Ht; [ | done].
    assert (∀ mt, TrackedItem.newer t mt = false →
      settled fs (TrackedItem.set_modtime mt
        (TrackedItem.set_hash (Some (md5_digest m))
           (TrackedItem.set_itemtype
              (classify fs (os_path_join root (TrackedItem.path i))) i)))) as Hgen.
    { intros mt Hmt. apply (settled_intro _ root); simpl;
        first [done | by rewrite Hk | intros _; eauto 10]. }
    destruct init.
    + intros [= <- <-]. apply Hgen, newer_irrefl.
    + destruct (TrackedItem.newer t (TrackedItem.modtime i)) eqn:Hn;
        intros [= <- <-].
      * apply Hgen, newer_irrefl.
      * specialize (Hgen (TrackedItem.modtime i) Hn).
        by destruct i.
  - intros [= <- <-]. apply (settled_intro _ root); simpl;
      first [done | intros Hf; by rewrite Hf in Hk].
Qed.
Lemma init_eq p root i0 h :
  TrackedItem.__init__ fs p root (TrackedItem.Frame i0 h)
  = match TrackedItem.update fs true true
            (TrackedItem.Frame (TrackedItem.mk p (Some root) None None None None) h) with
    | (Ok _, fr) => (Ok tt, fr)
    | (Raise e, fr) => (Raise e, fr)
    end.
Proof.
  unfold TrackedItem.__init__, TrackedItem.assign, bind, modify, ret; simpl.
  by destruct (TrackedItem.update _ _ _ _) as [[b|e] fr].
Qed.

(** A constructor that returns gives a settled item with the path and the
    owner it was given, no old path, and no file left open. *)
Lemma init_run p root i0 h fr :
  TrackedItem.__init__ fs p root (TrackedItem.Frame i0 h) = (Ok tt, fr) →
  settled fs (TrackedItem.self fr)
  ∧ TrackedItem.path (TrackedItem.self fr) = p
  ∧ TrackedItem.ct (TrackedItem.self fr) = Some root
  ∧ TrackedItem.oldpath (TrackedItem.self fr) = None
  ∧ TrackedItem.handles fr = h.
Proof.
  rewrite init_eq.
  destruct (TrackedItem.update _ _ _ _) as [[b|e] fr'] eqn:Hu; [ | done].
  intros [= <-].
  pose proof (update_keeps _ _ _ _ _ _ Hu) as (? & ? & ?).
  pose proof (update_handles _ _ _ _ _ _ Hu).
  pose proof (update_settles _ _ _ _ _ Hu). done.
Qed.

Lemma move_eq q nh r h :
  q ≠ TrackedItem.path r →
  TrackedItem.move fs q nh (TrackedItem.Frame r h)
  = let r1 := TrackedItem.set_path q
                (TrackedItem.set_oldpath (Some (TrackedItem.path r)) r) in
    match nh with
    | None =>
        match TrackedItem.update fs false true (TrackedItem.Frame r1 h) with
        | (Ok _, fr) => (Ok tt, fr)
        | (Raise e, fr) => (Raise e, fr)
        end
    | Some _ =>
        match TrackedItem.update fs false false (TrackedItem.Frame r1 h) with
        | (Ok _, fr) =>
            (Ok tt, TrackedItem.Frame (TrackedItem.set_hash nh (TrackedItem.self fr))
                      (TrackedItem.handles fr))
        | (Raise e, fr) => (Raise e, fr)
        end
    end.
Proof.
  intros Hq. unfold TrackedItem.move, TrackedItem.assign, bind, gets, modify, ret.
  simpl. rewrite decide_True by done. simpl.
  destruct nh; by destruct (TrackedItem.update _ _ _ _) as [[b|e] fr].
Qed.

Lemma move_same q nh r h :
  q = TrackedItem.path r →
  TrackedItem.move fs q nh (TrackedItem.Frame r h) = (Ok tt, TrackedItem.Frame r h).
Proof.
  intros Hq. unfold TrackedItem.move, TrackedItem.assign, bind, gets, modify, ret.
  simpl. by rewrite decide_False by (intros ?; done).
Qed.

(** A move that returns has put the item under the new path with the path
    it had as [oldpath]; it keeps the owner and leaves no file open. *)
Lemma move_run q nh r h fr :
  q ≠ TrackedItem.path r →
  TrackedItem.move fs q nh (TrackedItem.Frame r h) = (Ok tt, fr) →
  TrackedItem.path (TrackedItem.self fr) = q
  ∧ TrackedItem.ct (TrackedItem.self fr) = TrackedItem.ct r
  ∧ TrackedItem.oldpath (TrackedItem.self fr) = Some (TrackedItem.path r)
  ∧ TrackedItem.handles fr = h.
Proof.
  intros Hq. rewrite move_eq by done. cbv zeta.
  destruct nh.
  - destruct (TrackedItem.update _ _ _ _) as [[b|e] fr'] eqn:Hu; [ | done].
    intros [= <-].
    pose proof (update_keeps _ _ _ _ _ _ Hu) as (? & ? & ?).
    pose proof (update_handles _ _ _ _ _ _ Hu). done.
  - destruct (TrackedItem.update _ _ _ _) as [[b|e] fr'] eqn:Hu; [ | done].
    intros [= <-].
    pose proof (update_keeps _ _ _ _ _ _ Hu) as (? & ? & ?).
    pose proof (update_handles _ _ _ _ _ _ Hu). done.
Qed.

(** A move that is given a hash leaves the item with that hash. *)
Lemma move_hash q hq r h fr :
  q ≠ TrackedItem.path r →
  TrackedItem.move fs q (Some hq) (TrackedItem.Frame r h) = (Ok tt, fr) →
  TrackedItem.hash (TrackedItem.self fr) = Some hq.
Proof.
  intros Hq. rewrite move_eq by done. cbv zeta.
  destruct (TrackedItem.update _ _ _ _) as [[b|e] fr']; [ | done].
  by intros [= <-].
Qed.

(** Moving an item onto the path of a settled item of the same tracker,
    with that item's hash, leaves it settled: the hash that [move] takes
    over is the one a refresh would compute. *)
Lemma move_settles q r h fr a root :
  q ≠ TrackedItem.path r →
  TrackedItem.ct r = Some root →
  settled fs a →
  TrackedItem.path a = q →
  TrackedItem.ct a = Some root →
  TrackedItem.move fs q (TrackedItem.hash a) (TrackedItem.Frame r h) = (Ok tt, fr) →
  settled fs (TrackedItem.self fr).
Proof.
  intros Hq Hct Ha Hpa Hcta. rewrite move_eq by done. cbv zeta.
  destruct (settled_elim a root Ha Hcta) as (Hty & Hother & Hfile).
  rewrite Hpa in *.
  destruct (TrackedItem.hash a) as [hq|] eqn:Hh.
  - assert (TrackedItem.itemtype a = Some TrackedItem.file) as Hf.
    { destruct (decide (TrackedItem.itemtype a = Some TrackedItem.file)) as [|Hn];
        [done | ]. destruct (Hother Hn) as [? _]. congruence. }
    destruct (Hfile Hf) as (m & t & Hm & Hhq & Ht & _).
    rewrite update_refreshed. unfold refreshed.
    destruct r as [p c o k hv mt]; simpl in *. subst c.
    rewrite <- Hty, Hf. rewrite decide_True by done. rewrite Ht.
    unfold TrackedItem.set_modtime, TrackedItem.set_hash,
      TrackedItem.set_itemtype, TrackedItem.set_path, TrackedItem.set_oldpath;
      simpl.
    destruct (TrackedItem.newer t mt) eqn:Hn; intros [= <-];
      apply (settled_intro _ root); simpl.
    all: first [done | by rewrite <- Hty, Hf
               | intros _; exists m, t; split_and!; try done;
                 apply bool_decide_eq_false; lia ].
  - destruct (TrackedItem.update _ _ _ _) as [[b|e] fr'] eqn:Hu; [ | done].
    intros [= <-]. by eapply update_settles.
Qed.

End ItemFacts.

(** ** Dicts *)

Section DictFacts.
Context `{Platform}.

Lemma elem_of_dict_values {A : Type} (d : gmap string A) (x : A) :
  x ∈ dict_values d ↔ ∃ k, d !! k = Some x.
Proof.
  rewrite (dict_values_perm A d), list_elem_of_fmap. split.
  - intros ([k y] & -> & Hin). exists k. by apply elem_of_map_to_list.
  - intros [k Hk]. exists (k, x). split; [done | by apply elem_of_map_to_list].
Qed.

Lemma dict_values_empty {A : Type} : dict_values (∅ : gmap string A) = [].
Proof.
  apply Permutation_nil_r. by rewrite dict_values_perm, map_to_list_empty.
Qed.

Lemma dict_values_singleton {A : Type} (k : string) (x : A) :
  dict_values ({[k := x]} : gmap string A) = [x].
Proof.
  apply Permutation_singleton_r.
  by rewrite dict_values_perm, map_to_list_singleton.
Qed.

(** A dict of two entries lists them in one of the two orders. *)
Lemma dict_values_pair {A : Type} (k1 k2 : string) (x1 x2 : A) :
  k1 ≠ k2 →
  dict_values (<[k2 := x2]> ({[k1 := x1]} : gmap string A)) = [x1; x2]
  ∨ dict_values (<[k2 := x2]> ({[k1 := x1]} : gmap string A)) = [x2; x1].
Proof.
  intros Hne.
  assert (dict_values (<[k2 := x2]> ({[k1 := x1]} : gmap string A)) ≡ₚ [x2; x1])
    as Hp.
  { rewrite dict_values_perm, map_to_list_insert
      by (by rewrite lookup_singleton_ne).
    by rewrite map_to_list_singleton. }
  destruct (dict_values _) as [|a [|b [|c l]]];
    try (apply Permutation_length in Hp; done).
  apply Permutation_length_2 in Hp as [[-> ->] | [-> ->]]; auto.
Qed.
End DictFacts.

(** ** ChangeTracker.update, one loop body at a time *)

Section Steps.
Context `{Platform}.
Variable fs : FileSystem.
Import ChangeTracker.

Lemma del_eq get on_d k s :
  del get on_d k s
  = match get s !! k with
    | Some _ => (Ok tt, on_d (delete k) s)
    | None => (Raise KeyError, s)
    end.
Proof. unfold del, bind, gets, modify, raise. by destruct (get s !! k). Qed.

Lemma scan_eq root p s :
  scan fs root p s
  = let k := relative root p in
    let s0 := on_removeditems (delete k) s in
    match items s !! k with
    | None =>
        match TrackedItem.__init__ fs k root
                (TrackedItem.Frame TrackedItem.blank (handles s)) with
        | (Ok _, fr) =>
            (Ok tt,
             on_addeditems (insert k (TrackedItem.self fr))
               (on_items (insert k (TrackedItem.self fr))
                  (set_handles (TrackedItem.handles fr) s0)))
        | (Raise e, fr) => (Raise e, set_handles (TrackedItem.handles fr) s0)
        end
    | Some i =>
        match TrackedItem.update fs false true
                (TrackedItem.Frame i (handles s)) with
        | (Ok b, fr) =>
            (Ok tt,
             (if b then on_changeditems (insert k (TrackedItem.self fr)) else id)
               (on_items (insert k (TrackedItem.self fr))
                  (set_handles (TrackedItem.handles fr) s0)))
        | (Raise e, fr) =>
            (Raise e,
             on_items (insert k (TrackedItem.self fr))
               (set_handles (TrackedItem.handles fr) s0))
        end
    end.
Proof.
  cbv zeta. unfold scan. generalize (relative root p) as k. intros k.
  unfold bind, gets, modify, ret. simpl.
  case_decide as Hk; simpl.
  - destruct (items s !! k) as [i|] eqn:Hi; unfold call_at, call_on; simpl.
    + destruct (TrackedItem.update _ _ _ _) as [[[] | e] fr]; done.
    + destruct (TrackedItem.__init__ _ _ _ _) as [[[] | e] fr]; done.
  - assert (on_removeditems (delete k) s = s) as ->.
    { destruct s; unfold on_removeditems; simpl. f_equal.
      apply delete_id. by apply eq_None_not_Some. }
    destruct (items s !! k) as [i|] eqn:Hi; unfold call_at, call_on; simpl.
    + destruct (TrackedItem.update _ _ _ _) as [[[] | e] fr]; done.
    + destruct (TrackedItem.__init__ _ _ _ _) as [[[] | e] fr]; done.
Qed.

Lemma detect_move_eq addedhashes r s :
  detect_move fs addedhashes r s
  = if decide (TrackedItem.itemtype r = Some TrackedItem.file
               ∧ TrackedItem.hash r ∈ addedhashes) then
      match filter (λ i, TrackedItem.hash i = TrackedItem.hash r)
              (dict_values (addeditems s)) with
      | [] => (Raise IndexError, s)
      | a :: _ =>
          match addeditems s !! TrackedItem.path a with
          | None => (Raise KeyError, s)
          | Some _ =>
              let s1 := on_addeditems (delete (TrackedItem.path a)) s in
              match removeditems s !! TrackedItem.path r with
              | None => (Raise KeyError, s1)
              | Some _ =>
                  let s2 := on_removeditems (delete (TrackedItem.path r)) s1 in
                  match items s !! TrackedItem.path r with
                  | None => (Raise KeyError, s2)
                  | Some _ =>
                      let s3 := on_items (delete (TrackedItem.path r)) s2 in
                      match TrackedItem.move fs (TrackedItem.path a)
                              (TrackedItem.hash a)
                              (TrackedItem.Frame r (handles s)) with
                      | (Ok _, fr) =>
                          let m := TrackedItem.self fr in
                          (Ok tt,
                           on_moveditems (insert (TrackedItem.path m) m)
                             (on_items (insert (TrackedItem.path m) m)
                                (set_handles (TrackedItem.handles fr) s3)))
                      | (Raise e, fr) =>
                          (Raise e, set_handles (TrackedItem.handles fr) s3)
                      end
                  end
              end
          end
      end
    else (Ok tt, s).
Proof.
  unfold detect_move. case_decide as Hc; [ | done].
  unfold bind at 1. unfold gets at 1.
  destruct (filter _ _) as [|a l]; [done | ].
  unfold bind at 1. rewrite del_eq.
  destruct (addeditems s !! _); [ | done].
  unfold bind at 1. rewrite del_eq. simpl.
  destruct (removeditems s !! _); [ | done].
  unfold bind at 1. rewrite del_eq. simpl.
  destruct (items s !! _); [ | done].
  unfold bind, call_on, modify. simpl.
  by destruct (TrackedItem.move _ _ _ _) as [[[] | e] fr].
Qed.

Lemma drop_removed_eq has_handler r s :
  drop_removed has_handler r s
  = let s1 := if has_handler then notify (on_removed r) s else s in
    match items s !! TrackedItem.path r with
    | Some _ => (Ok tt, on_items (delete (TrackedItem.path r)) s1)
    | None => (Raise KeyError, s1)
    end.
Proof.
  unfold drop_removed, bind. destruct has_handler; unfold modify, ret;
    rewrite del_eq; simpl; by destruct (items s !! _).
Qed.

End Steps.

(** ** The invariant of the loops *)

Section Reconcile.
Context `{Platform}.
Variable fs : FileSystem.
Variable root : string.
Variable S0 : gmap string TrackedItem.t.
Variable L : list string.
Import ChangeTracker.

Lemma coherent_lookup (d : gmap string TrackedItem.t) k i :
  coherent d → d !! k = Some i → TrackedItem.path i = k.
Proof. intros Hd Hk. by apply (Hd k i). Qed.

Lemma owned_lookup (d : gmap string TrackedItem.t) k i :
  owned root d → d !! k = Some i → TrackedItem.ct i = Some root.
Proof. intros Hd Hk. by apply (Hd k i). Qed.

Lemma coherent_insert (d : gmap string TrackedItem.t) k i :
  coherent d → TrackedItem.path i = k → coherent (<[k := i]> d).
Proof. intros Hd Hk. by apply map_Forall_insert_2. Qed.

Lemma owned_insert (d : gmap string TrackedItem.t) k i :
  owned root d → TrackedItem.ct i = Some root → owned root (<[k := i]> d).
Proof. intros Hd Hk. by apply map_Forall_insert_2. Qed.

Lemma coherent_delete (d : gmap string TrackedItem.t) k :
  coherent d → coherent (delete k d).
Proof. intros Hd. by apply map_Forall_delete. Qed.

Lemma owned_delete (d : gmap string TrackedItem.t) k :
  owned root d → owned root (delete k d).
Proof. intros Hd. by apply map_Forall_delete. Qed.

(** The state the loops start from. *)
Lemma enter_scanning self h :
  allitems self = S0 → coherent S0 → owned root S0 →
  scanning fs root S0 L (enter self h).
Proof.
  intros <- Hcoh Hown. unfold scanning. split; [ | by split].
  split; simpl; try done.
  - intros k i Hk Hk'. congruence.
  - intros k i Hk. right. split; [done | ]. left. eauto.
Qed.

Lemma scan_scanning p s s' :
  relative root p ∈ L →
  scanning fs root S0 L s →
  scan fs root p s = (Ok tt, s') →
  scanning fs root S0 L s'.
Proof.
  intros HL (Hrec & Hmv & Hdom). rewrite scan_eq. cbv zeta.
  set (k := relative root p) in *.
  destruct Hrec as [Hcoh Hown Hrem Hset Hadd Hori].
  destruct s as [it rm ad ch mv h cl]; simpl in *. subst mv.
  destruct (it !! k) as [i0|] eqn:Hi0.
  - destruct (rm !! k) as [i1|] eqn:Hi1.
    + destruct (Hrem _ _ Hi1) as [HS Hit]. simplify_eq.
      destruct (TrackedItem.update _ _ _ _) as [[b|e] fr] eqn:Hu; [ | done].
      intros [= <-].
      pose proof (update_keeps _ _ _ _ _ _ _ Hu) as (Hp & Hc & Ho).
      pose proof (update_settles _ _ _ _ _ _ Hu) as Hst.
      assert (ad !! k = None) as Hadk.
      { destruct (ad !! k) eqn:Hk; [ | done].
        destruct (Hadd _ _ Hk) as (_ & ? & _). congruence. }
      assert (scanning fs root S0 L
        (State (<[k := TrackedItem.self fr]> it) (delete k rm) ad ch ∅
               (TrackedItem.handles fr) cl)) as Hgoal.
      { unfold scanning. split; [split | split]; simpl.
        - apply coherent_insert; [done | ].
          rewrite Hp. by eapply coherent_lookup.
        - apply owned_insert; [done | ]. rewrite Hc. by eapply owned_lookup.
        - intros k' i Hk'. apply lookup_delete_Some in Hk' as [Hne Hk'].
          rewrite lookup_insert_ne by done. by apply Hrem.
        - intros k' i Hk' Hrm. destruct (decide (k' = k)) as [-> | Hne].
          + rewrite lookup_insert_eq in Hk'. by simplify_eq.
          + rewrite lookup_insert_ne in Hk' by done.
            rewrite lookup_delete_ne in Hrm by done. by apply Hset.
        - intros k' i Hk'. destruct (decide (k' = k)) as [-> | Hne];
            [congruence | ].
          rewrite lookup_insert_ne, lookup_delete_ne by done. by apply Hadd.
        - intros k' i Hk'. right. split; [done | ].
          destruct (decide (k' = k)) as [-> | Hne].
          + rewrite lookup_insert_eq in Hk'. simplify_eq. left.
            exists i0. by rewrite Ho.
          + rewrite lookup_insert_ne in Hk' by done.
            destruct (Hori _ _ Hk') as [(? & _) | (_ & ?)]; [done | done].
        - done.
        - intros k' Hk'. destruct (decide (k' = k)) as [-> | Hne].
          + by rewrite lookup_insert_eq.
          + rewrite lookup_insert_ne by done. by apply Hdom. }
      destruct b; exact Hgoal || (destruct Hgoal as (Hr & ? & ?);
        split; [ | by split]; by destruct Hr).
    + destruct (Hset _ _ Hi0 Hi1) as [Hst _]. rewrite (Hst h).
      intros [= <-]. unfold on_items, on_removeditems, set_handles; simpl.
      rewrite insert_id, delete_id by done.
      unfold scanning. split; [ | by split]. by split.
  - destruct (TrackedItem.__init__ _ _ _ _) as [[[]|e] fr] eqn:Hu; [ | done].
    intros [= <-].
    destruct (init_run _ _ _ _ _ _ Hu) as (Hst & Hp & Hc & Ho & Hh).
    assert (S0 !! k = None) as HS.
    { destruct (S0 !! k) eqn:HS; [ | done].
      destruct (Hdom k) as [? ?]; [by eauto | congruence]. }
    assert (rm !! k = None) as Hrm.
    { destruct (rm !! k) eqn:Hk; [ | done].
      destruct (Hrem _ _ Hk) as [? _]. congruence. }
    unfold on_items, on_removeditems, on_addeditems, set_handles; simpl.
    rewrite (delete_id rm) by done.
    unfold scanning. split; [split | split]; simpl.
    + by apply coherent_insert.
    + by apply owned_insert.
    + intros k' i Hk'. destruct (decide (k' = k)) as [-> | Hne];
        [congruence | ].
      rewrite lookup_insert_ne by done. by apply Hrem.
    + intros k' i Hk' Hrm'. destruct (decide (k' = k)) as [-> | Hne].
      * rewrite lookup_insert_eq in Hk'. by simplify_eq.
      * rewrite lookup_insert_ne in Hk' by done. by apply Hset.
    + intros k' i Hk'. destruct (decide (k' = k)) as [-> | Hne].
      * rewrite lookup_insert_eq in Hk'. simplify_eq.
        by rewrite lookup_insert_eq.
      * rewrite lookup_insert_ne in Hk' by done.
        rewrite lookup_insert_ne by done. by apply Hadd.
    + intros k' i Hk'. right. split; [done | ].
      destruct (decide (k' = k)) as [-> | Hne].
      * rewrite lookup_insert_eq in Hk'. simplify_eq. right.
        by rewrite lookup_insert_eq.
      * rewrite lookup_insert_ne in Hk' by done.
        rewrite lookup_insert_ne by done.
        destruct (Hori _ _ Hk') as [(? & _) | (_ & ?)]; done.
    + done.
    + intros k' Hk'. destruct (decide (k' = k)) as [-> | Hne].
      * by rewrite lookup_insert_eq.
      * rewrite lookup_insert_ne by done. by apply Hdom.
Qed.

(** What a run of [scan] that returns does to the snapshot and to the
    tentative removals. *)
Lemma scan_shape p s s' :
  scan fs root p s = (Ok tt, s') →
  (∃ i, items s' = <[relative root p := i]> (items s))
  ∧ removeditems s' = delete (relative root p) (removeditems s).
Proof.
  rewrite scan_eq. cbv zeta. destruct (items s !! _).
  - destruct (TrackedItem.update _ _ _ _) as [[b|e] fr]; [ | done].
    intros [= <-]. destruct s. by destruct b; simpl; eauto.
  - destruct (TrackedItem.__init__ _ _ _ _) as [[[]|e] fr]; [ | done].
    intros [= <-]. destruct s. simpl; eauto.
Qed.

Lemma scan_all_listed listing s s' :
  for_each listing (scan fs root) s = (Ok tt, s') →
  ∀ p, p ∈ listing →
    is_Some (items s' !! relative root p)
    ∧ removeditems s' !! relative root p = None.
Proof.
  apply (for_each_post
    (λ p s, is_Some (items s !! relative root p)
            ∧ removeditems s !! relative root p = None)).
  - intros p t t' _ Hrun. apply scan_shape in Hrun as [[i ->] ->].
    by rewrite lookup_insert_eq, lookup_delete_eq.
  - intros p q t t' _ _ [Hit Hrm] Hrun.
    apply scan_shape in Hrun as [[i ->] ->]. split.
    + rewrite lookup_insert. case_decide; [by eauto | done].
    + rewrite lookup_delete. by case_decide.
Qed.

(** The first loop, run to its end. *)
Lemma scan_loop self listing h s1 :
  allitems self = S0 → coherent S0 → owned root S0 →
  L = relative root <$> listing →
  for_each listing (scan fs root) (enter self h) = (Ok tt, s1) →
  reconciling fs root S0 L s1 ∧ listed L s1 ∧ moveditems s1 = ∅.
Proof.
  intros Hself Hcoh Hown HL Hrun.
  assert (scanning fs root S0 L s1) as (Hrec & Hmv & _).
  { eapply (for_each_ok (scanning fs root S0 L)); [ | | exact Hrun].
    - intros p t t' Hp. apply scan_scanning.
      rewrite HL. by apply list_elem_of_fmap_2.
    - by apply enter_scanning. }
  split; [done | ]. split; [ | done].
  intros k Hk. rewrite HL in Hk.
  apply list_elem_of_fmap in Hk as (p & -> & Hp).
  by eapply scan_all_listed.
Qed.

(** The second loop keeps the invariant, for a removed item [r] of the
    old snapshot. *)
Lemma detect_move_reconciling hs r s s' :
  S0 !! TrackedItem.path r = Some r →
  reconciling fs root S0 L s ∧ listed L s →
  detect_move fs hs r s = (Ok tt, s') →
  reconciling fs root S0 L s' ∧ listed L s'.
Proof.
  intros Hr [Hrec Hlist]. rewrite detect_move_eq.
  case_decide as Hcond; [ | by intros [= <-]].
  destruct (filter _ _) as [|a l] eqn:Hfilter; [done | ].
  assert (a ∈ dict_values (addeditems s)
          ∧ TrackedItem.hash a = TrackedItem.hash r) as [Ha Hhash].
  { assert (a ∈ filter (λ i, TrackedItem.hash i = TrackedItem.hash r)
                  (dict_values (addeditems s))) as Hin
      by (rewrite Hfilter; by left).
    apply list_elem_of_filter in Hin as [? ?]. done. }
  apply elem_of_dict_values in Ha as [ka Hka].
  destruct Hrec as [Hcoh Hown Hrem Hset Hadd Hori].
  destruct (Hadd _ _ Hka) as (Hita & Hrma & HSa).
  pose proof (coherent_lookup _ _ _ Hcoh Hita) as Hpa.
  pose proof (owned_lookup _ _ _ Hown Hita) as Hcta.
  destruct (Hset _ _ Hita Hrma) as [Hsta HLa].
  rewrite Hpa, Hka. cbv zeta.
  set (kr := TrackedItem.path r) in *.
  destruct (removeditems s !! kr) as [r'|] eqn:Hrmr; [ | done].
  destruct (Hrem _ _ Hrmr) as [HSr Hitr].
  assert (r' = r) as -> by congruence.
  rewrite Hitr.
  assert (ka ≠ kr) as Hne by (intros ->; congruence).
  pose proof (owned_lookup _ _ _ Hown Hitr) as Hctr.
  destruct (TrackedItem.move _ _ _ _) as [[[]|e] fr] eqn:Hmove; [ | done].
  intros [= <-].
  destruct (move_run _ _ _ _ _ _ Hne Hmove) as (Hpm & Hcm & Hom & Hhm).
  pose proof (move_settles _ _ _ _ _ _ _ Hne Hctr Hsta Hpa Hcta Hmove)
    as Hstm.
  set (m := TrackedItem.self fr) in *. rewrite Hpm.
  destruct s as [it rm ad ch mv h cl]; simpl in *.
  split; [split | ]; simpl.
  - apply coherent_insert; [ | done]. by apply coherent_delete.
  - apply owned_insert; [ | congruence]. by apply owned_delete.
  - intros k i Hk. apply lookup_delete_Some in Hk as [Hk1 Hk].
    destruct (Hrem _ _ Hk) as [? ?]. split; [done | ].
    rewrite lookup_insert_ne by (intros ->; congruence).
    by rewrite lookup_delete_ne.
  - intros k i Hk Hrm. destruct (decide (k = ka)) as [-> | Hka'].
    + rewrite lookup_insert_eq in Hk. by simplify_eq.
    + rewrite lookup_insert_ne in Hk by done.
      apply lookup_delete_Some in Hk as [Hk1 Hk].
      rewrite lookup_delete_ne in Hrm by done. by apply Hset.
  - intros k i Hk. apply lookup_delete_Some in Hk as [Hk1 Hk].
    destruct (Hadd _ _ Hk) as (? & ? & ?).
    assert (k ≠ kr) by (intros ->; congruence).
    rewrite lookup_insert_ne, !lookup_delete_ne by done. done.
  - intros k i Hk. destruct (decide (k = ka)) as [-> | Hka'].
    + rewrite lookup_insert_eq in Hk. simplify_eq. left.
      rewrite lookup_insert_eq. split; [done | ]. split; [done | ].
      exists kr, r. rewrite Hom. split_and!; try done; [by destruct Hcond | ].
      intros [hq Hhq]. rewrite Hhq in Hhash. rewrite Hhash in Hmove.
      rewrite <- Hhq in Hhash. rewrite Hhq.
      by eapply move_hash.
    + rewrite lookup_insert_ne in Hk by done.
      apply lookup_delete_Some in Hk as [Hk1 Hk].
      rewrite lookup_insert_ne, lookup_delete_ne by done.
      by apply Hori.
  - intros k Hk. destruct (Hlist _ Hk) as [Hit Hrm]. simpl in *.
    assert (k ≠ kr) by (intros ->; congruence). split.
    + rewrite lookup_insert. case_decide; [by eauto | ].
      by rewrite lookup_delete_ne.
    + by rewrite lookup_delete_ne.
Qed.

(** The second loop, run to its end. *)
Lemma move_loop hs s1 s2 :
  reconciling fs root S0 L s1 ∧ listed L s1 →
  for_each (dict_values (removeditems s1)) (detect_move fs hs) s1 = (Ok tt, s2) →
  reconciling fs root S0 L s2 ∧ listed L s2.
Proof.
  intros Hs1.
  apply (for_each_ok (λ s, reconciling fs root S0 L s ∧ listed L s)); [ | done].
  intros r t t' Hr. apply detect_move_reconciling.
  apply elem_of_dict_values in Hr as [k Hk].
  destruct Hs1 as [Hrec _].
  destruct (rec_removed _ _ _ _ _ Hrec _ _ Hk) as [HS Hit].
  by rewrite (coherent_lookup _ _ _ (rec_coherent _ _ _ _ _ Hrec) Hit).
Qed.

Lemma drop_removed_shape b r s s' :
  drop_removed b r s = (Ok tt, s') →
  items s' = delete (TrackedItem.path r) (items s)
  ∧ removeditems s' = removeditems s
  ∧ addeditems s' = addeditems s
  ∧ changeditems s' = changeditems s
  ∧ moveditems s' = moveditems s
  ∧ handles s' = handles s.
Proof.
  rewrite drop_removed_eq. cbv zeta. destruct (items s !! _); [ | done].
  intros [= <-]. by destruct b, s.
Qed.

(** The third loop, run to its end, takes what is left of the tentative
    removals out of the snapshot and nothing else. *)
Lemma drop_loop b s2 s3 :
  (∀ k i, removeditems s2 !! k = Some i → TrackedItem.path i = k) →
  for_each (dict_values (removeditems s2)) (drop_removed b) s2 = (Ok tt, s3) →
  items s3 = items s2 ∖ removeditems s2
  ∧ removeditems s3 = removeditems s2
  ∧ addeditems s3 = addeditems s2
  ∧ changeditems s3 = changeditems s2
  ∧ moveditems s3 = moveditems s2
  ∧ handles s3 = handles s2.
Proof.
  intros Hcoh Hrun.
  assert ((∀ k, removeditems s2 !! k = None → items s3 !! k = items s2 !! k)
          ∧ (∀ k, is_Some (items s3 !! k) → items s3 !! k = items s2 !! k)
          ∧ removeditems s3 = removeditems s2
          ∧ addeditems s3 = addeditems s2
          ∧ changeditems s3 = changeditems s2
          ∧ moveditems s3 = moveditems s2
          ∧ handles s3 = handles s2) as (Hkeep & Hsub & ? & ? & ? & ? & ?).
  { revert Hrun. apply (for_each_ok (λ s,
      (∀ k, removeditems s2 !! k = None → items s !! k = items s2 !! k)
      ∧ (∀ k, is_Some (items s !! k) → items s !! k = items s2 !! k)
      ∧ removeditems s = removeditems s2
      ∧ addeditems s = addeditems s2
      ∧ changeditems s = changeditems s2
      ∧ moveditems s = moveditems s2
      ∧ handles s = handles s2)); [ | done].
    intros r t t' Hr (Hkeep & Hsub & ? & ? & ? & ? & ?) Hstep.
    apply drop_removed_shape in Hstep as (-> & -> & -> & -> & -> & ->).
    apply elem_of_dict_values in Hr as [k Hk].
    rewrite (Hcoh _ _ Hk). split_and!; try done.
    - intros k' Hk'. rewrite lookup_delete_ne by (intros ->; congruence).
      by apply Hkeep.
    - intros k' Hk'. destruct (decide (k = k')) as [-> | Hne].
      + rewrite lookup_delete_eq in Hk'. by destruct Hk'.
      + rewrite lookup_delete_ne in Hk' |- * by done. by apply Hsub. }
  assert (∀ r, r ∈ dict_values (removeditems s2) →
            items s3 !! TrackedItem.path r = None) as Hgone.
  { revert Hrun. apply (for_each_post (λ r s, items s !! TrackedItem.path r = None)).
    - intros r t t' _ Hstep.
      apply drop_removed_shape in Hstep as (-> & _).
      apply lookup_delete_eq.
    - intros r q t t' _ _ Hq Hstep.
      apply drop_removed_shape in Hstep as (-> & _).
      rewrite lookup_delete. by case_decide. }
  split_and!; try done.
  apply map_eq. intros k. rewrite lookup_difference.
  destruct (removeditems s2 !! k) as [r|] eqn:Hk.
  - rewrite <- (Hcoh _ _ Hk). apply Hgone, elem_of_dict_values. eauto.
  - by apply Hkeep.
Qed.

(** The three loops that report to the handler change nothing but the
    record of the calls. *)
Lemma notify_loop (f : TrackedItem.t → call) l s :
  for_each l (λ i, modify (notify (f i))) s
  = (Ok tt, State (items s) (removeditems s) (addeditems s) (changeditems s)
              (moveditems s) (handles s) (calls s ++ (f <$> l))).
Proof.
  revert s. induction l as [|x l IH]; intros s; simpl.
  - unfold ret. rewrite app_nil_r. by destruct s.
  - unfold bind at 1. unfold modify at 1. rewrite IH. simpl.
    by rewrite <- app_assoc.
Qed.

End Reconcile.

(** ** ChangeTracker.update as a whole *)

Section Update.
Context `{Platform}.
Variable fs : FileSystem.
Import ChangeTracker.

Lemma update_unfold self listing h :
  update fs self listing h
  = match for_each listing (scan fs (path self)) (enter self h) with
    | (Raise e, s1) => (Raise e, s1)
    | (Ok _, s1) =>
        match for_each (dict_values (removeditems s1))
                (detect_move fs (TrackedItem.hash <$> dict_values (addeditems s1)))
                s1 with
        | (Raise e, s2) => (Raise e, s2)
        | (Ok _, s2) =>
            match for_each (dict_values (removeditems s2))
                    (drop_removed (handler self)) s2 with
            | (Raise e, s3) => (Raise e, s3)
            | (Ok _, s3) => (Ok tt, reported self s3)
            end
        end
    end.
Proof.
  unfold update, update_body, reported.
  unfold bind at 1. destruct (for_each listing _ _) as [[[]|e] s1]; [ | done].
  unfold bind at 1. unfold gets at 1.
  unfold bind at 1. unfold gets at 1.
  unfold bind at 1. destruct (for_each _ _ s1) as [[[]|e] s2]; [ | done].
  unfold bind at 1. unfold gets at 1.
  unfold bind at 1. destruct (for_each _ _ s2) as [[[]|e] s3]; [ | done].
  destruct (handler self); [ | done].
  unfold bind at 1. unfold gets at 1.
  unfold bind at 1. rewrite notify_loop.
  unfold bind at 1. unfold gets at 1. simpl.
  unfold bind at 1. rewrite notify_loop. simpl.
  unfold bind at 1. unfold gets at 1. simpl.
  by rewrite notify_loop.
Qed.

Lemma reported_dicts self s :
  items (reported self s) = items s
  ∧ removeditems (reported self s) = removeditems s
  ∧ addeditems (reported self s) = addeditems s
  ∧ changeditems (reported self s) = changeditems s
  ∧ moveditems (reported self s) = moveditems s
  ∧ handles (reported self s) = handles s.
Proof. unfold reported. by destruct (handler self). Qed.

(** What holds after a tick that returns, started from a snapshot that is
    keyed by path and owned by the tracker. *)
Lemma update_post self listing h st :
  coherent (allitems self) →
  owned (path self) (allitems self) →
  update fs self listing h = (Ok tt, st) →
  let S0 := allitems self in
  let L := relative (path self) <$> listing in
  coherent (items st)
  ∧ owned (path self) (items st)
  ∧ (∀ k i, items st !! k = Some i → settled fs i ∧ k ∈ L)
  ∧ (∀ k, k ∈ L → is_Some (items st !! k) ∧ removeditems st !! k = None)
  ∧ (∀ k i, removeditems st !! k = Some i →
       S0 !! k = Some i ∧ items st !! k = None)
  ∧ (∀ k i, addeditems st !! k = Some i →
       items st !! k = Some i ∧ S0 !! k = None)
  ∧ (∀ k i, items st !! k = Some i →
       (moveditems st !! k = Some i
        ∧ S0 !! k = None
        ∧ ∃ q i0, S0 !! q = Some i0 ∧ TrackedItem.oldpath i = Some q
                  ∧ TrackedItem.itemtype i0 = Some TrackedItem.file
                  ∧ (is_Some (TrackedItem.hash i0) →
                     TrackedItem.hash i = TrackedItem.hash i0))
       ∨ (moveditems st !! k = None
          ∧ ((∃ i0, S0 !! k = Some i0
                    ∧ TrackedItem.oldpath i = TrackedItem.oldpath i0)
             ∨ (addeditems st !! k = Some i
                ∧ TrackedItem.oldpath i = None)))).
Proof.
  intros Hcoh Hown. rewrite update_unfold. intros Hrun S0 L.
  destruct (for_each listing _ _) as [[[]|e] s1] eqn:H1; [ | done].
  destruct (for_each _ _ s1) as [[[]|e] s2] eqn:H2; [ | done].
  destruct (for_each _ _ s2) as [[[]|e] s3] eqn:H3; [ | done].
  injection Hrun as <-.
  destruct (reported_dicts self s3) as (-> & -> & -> & _ & -> & _).
  destruct (scan_loop fs (path self) S0 L self listing h s1)
    as (Hrec1 & Hlist1 & _); try done.
  destruct (move_loop fs (path self) S0 L _ s1 s2 (conj Hrec1 Hlist1) H2)
    as [Hrec Hlist].
  destruct Hrec as [Hcoh2 Hown2 Hrem Hset Hadd Hori].
  destruct (drop_loop (handler self) s2 s3) as (-> & -> & -> & _ & -> & _);
    [ | done | ].
  { intros k i Hk. destruct (Hrem _ _ Hk) as [_ Hit].
    by eapply coherent_lookup. }
  split_and!.
  - intros k i Hk. apply lookup_difference_Some in Hk as [Hk _].
    by apply (Hcoh2 k i).
  - intros k i Hk. apply lookup_difference_Some in Hk as [Hk _].
    by apply (Hown2 k i).
  - intros k i Hk. apply lookup_difference_Some in Hk as [Hk Hrm].
    by apply Hset.
  - intros k Hk. destruct (Hlist _ Hk) as [[i Hi] Hrm]. split; [ | done].
    exists i. by apply lookup_difference_Some.
  - intros k i Hk. destruct (Hrem _ _ Hk) as [? _]. split; [done | ].
    apply lookup_difference_None. right. eauto.
  - intros k i Hk. destruct (Hadd _ _ Hk) as (? & ? & ?). split; [ | done].
    by apply lookup_difference_Some.
  - intros k i Hk. apply lookup_difference_Some in Hk as [Hk Hrm].
    by apply Hori.
Qed.

(** Key coherence is kept by every loop body, however it ends. *)
Lemma scan_coherent root p s r s' :
  coherent (items s) ∧ coherent (moveditems s) →
  scan fs root p s = (r, s') →
  coherent (items s') ∧ coherent (moveditems s').
Proof.
  intros [Hcoh Hmv]. rewrite scan_eq. cbv zeta.
  destruct (items s !! _) as [i|] eqn:Hi.
  - destruct (TrackedItem.update _ _ _ _) as [[b|e] fr] eqn:Hu;
      intros [= <- <-];
      pose proof (update_keeps _ _ _ _ _ _ _ Hu) as (Hp & _);
      destruct s; try destruct b; simpl in *;
      (split; [ | done]); apply map_Forall_insert_2; try done;
      rewrite Hp; by apply (Hcoh _ _ Hi).
  - destruct (TrackedItem.__init__ _ _ _ _) as [[[]|e] fr] eqn:Hu;
      intros [= <- <-]; destruct s; simpl in *; [ | done].
    destruct (init_run _ _ _ _ _ _ Hu) as (_ & Hp & _).
    split; [ | done]. by apply map_Forall_insert_2.
Qed.

Lemma detect_move_coherent hs x s r s' :
  coherent (items s) ∧ coherent (moveditems s) →
  detect_move fs hs x s = (r, s') →
  coherent (items s') ∧ coherent (moveditems s').
Proof.
  intros [Hcoh Hmv]. rewrite detect_move_eq.
  case_decide; [ | by intros [= <- <-]].
  destruct (filter _ _) as [|a l]; [by intros [= <- <-] | ].
  destruct (addeditems s !! _); [ | by intros [= <- <-]]. cbv zeta.
  destruct (removeditems s !! _); [ | intros [= <- <-]; by destruct s].
  destruct (items s !! _); [ | intros [= <- <-]; by destruct s].
  destruct (TrackedItem.move _ _ _ _) as [[[]|e] fr];
    intros [= <- <-]; destruct s; simpl in *.
  - split; apply map_Forall_insert_2; try done. by apply map_Forall_delete.
  - split; [ | done]. by apply map_Forall_delete.
Qed.

Lemma drop_removed_coherent b x s r s' :
  coherent (items s) ∧ coherent (moveditems s) →
  drop_removed b x s = (r, s') →
  coherent (items s') ∧ coherent (moveditems s').
Proof.
  intros [Hcoh Hmv]. rewrite drop_removed_eq. cbv zeta.
  destruct (items s !! _); intros [= <- <-]; destruct b, s; simpl in *;
    try done; (split; [ | done]); by apply map_Forall_delete.
Qed.

Lemma update_coherent self listing h :
  coherent (allitems self) →
  coherent (items (update fs self listing h).2)
  ∧ coherent (moveditems (update fs self listing h).2).
Proof.
  intros Hcoh. rewrite update_unfold.
  set (I := λ s : state, coherent (items s) ∧ coherent (moveditems s)).
  assert (I (enter self h)) as H0 by (split; [done | apply map_Forall_empty]).
  destruct (for_each listing _ _) as [r1 s1] eqn:H1.
  assert (I s1) as Hs1.
  { eapply (for_each_inv I); [ | exact H0 | exact H1].
    intros p t r t' _. apply scan_coherent. }
  destruct r1 as [[]|e]; [ | done].
  destruct (for_each _ _ s1) as [r2 s2] eqn:H2.
  assert (I s2) as Hs2.
  { eapply (for_each_inv I); [ | exact Hs1 | exact H2].
    intros p t r t' _. apply detect_move_coherent. }
  destruct r2 as [[]|e]; [ | done].
  destruct (for_each _ _ s2) as [r3 s3] eqn:H3.
  assert (I s3) as Hs3.
  { eapply (for_each_inv I); [ | exact Hs2 | exact H3].
    intros p t r t' _. apply drop_removed_coherent. }
  destruct r3 as [[]|e]; [ | done]. simpl.
  by destruct (reported_dicts self s3) as (-> & _ & _ & _ & -> & _).
Qed.



End Update.

(** ** Runs on given files *)

Section Runs.
Context `{Platform}.
Variable fs : FileSystem.
Import ChangeTracker.

(** The constructor on a path that is a readable file. *)
Lemma init_file k root i0 h content t :
  classify fs (os_path_join root k) = Some TrackedItem.file →
  digest_input fs (os_path_join root k) = Ok content →
  st_mtime fs (os_path_join root k) = Some t →
  TrackedItem.__init__ fs k root (TrackedItem.Frame i0 h)
  = (Ok tt,
     TrackedItem.Frame
       (TrackedItem.mk k (Some root) None (Some TrackedItem.file)
          (Some (md5_digest content)) (Some t)) h).
Proof.
  intros Hc Hd Ht. rewrite init_eq, update_refreshed. unfold refreshed. simpl.
  rewrite Hc, Hd, Ht. by rewrite decide_True.
Qed.

(** The constructor on a path that is neither link, file nor directory. *)
Lemma init_absent k root i0 h :
  classify fs (os_path_join root k) = None →
  TrackedItem.__init__ fs k root (TrackedItem.Frame i0 h)
  = (Ok tt,
     TrackedItem.Frame (TrackedItem.mk k (Some root) None None None None) h).
Proof.
  intros Hc. rewrite init_eq, update_refreshed. unfold refreshed. simpl.
  rewrite Hc. by rewrite decide_False.
Qed.

(** A move, with a known hash, onto a path that is a file. *)
Lemma move_file q hq r h root t :
  q ≠ TrackedItem.path r →
  TrackedItem.ct r = Some root →
  classify fs (os_path_join root q) = Some TrackedItem.file →
  st_mtime fs (os_path_join root q) = Some t →
  TrackedItem.move fs q (Some hq) (TrackedItem.Frame r h)
  = (Ok tt,
     TrackedItem.Frame
       (TrackedItem.mk q (Some root) (Some (TrackedItem.path r))
          (Some TrackedItem.file) (Some hq)
          (if TrackedItem.newer t (TrackedItem.modtime r) then Some t
           else TrackedItem.modtime r)) h).
Proof.
  intros Hq Hct Hc Ht. rewrite move_eq by done. cbv zeta.
  rewrite update_refreshed. unfold refreshed.
  destruct r as [p c o k hv mt]; simpl in *. subst c.
  rewrite Hc, Ht. rewrite decide_True by done.
  by destruct (TrackedItem.newer t mt).
Qed.

Lemma digest_input_whole p fd :
  open_rb fs p = Some fd → read_error fd = None →
  digest_input fs p = Ok (data fd).
Proof.
  intros Hopen Herr. unfold digest_input, fopen. rewrite Hopen, Herr.
  rewrite read_loop_all by lia. done.
Qed.

Lemma for_each_one {S A : Type} (x : A) (body : A → M S unit) s :
  for_each [x] body s = body x s.
Proof.
  simpl. unfold bind, ret. by destruct (body x s) as [[[]|e] s'].
Qed.

Lemma for_each_two {S A : Type} (x y : A) (body : A → M S unit) s :
  for_each [x; y] body s
  = match body x s with
    | (Ok _, s') => body y s'
    | (Raise e, s') => (Raise e, s')
    end.
Proof.
  change (for_each [x; y] body s) with (bind (body x) (λ _, for_each [y] body) s).
  unfold bind at 1. destruct (body x s) as [[[]|e] s']; [ | done].
  apply for_each_one.
Qed.

End Runs.

(** Writes a state out field by field. *)
Ltac state_simpl :=
  unfold ChangeTracker.on_items, ChangeTracker.on_removeditems,
    ChangeTracker.on_addeditems, ChangeTracker.on_changeditems,
    ChangeTracker.on_moveditems, ChangeTracker.set_handles,
    ChangeTracker.notify, ChangeTracker.enter;
  cbn [ChangeTracker.items ChangeTracker.removeditems ChangeTracker.addeditems
       ChangeTracker.changeditems ChangeTracker.moveditems
       ChangeTracker.handles ChangeTracker.calls
       TrackedItem.self TrackedItem.handles
       TrackedItem.path TrackedItem.ct TrackedItem.oldpath
       TrackedItem.itemtype TrackedItem.hash TrackedItem.modtime].

(** * The claims *)

Section SharedHash.
Context `{Platform}.
Variable fs : FileSystem.
Import ChangeTracker.

(** A removed file whose hash is in the list made before the loop, when
    no added item is left: the list has an element 0 no more. *)
Lemma detect_move_starved hs y s :
  TrackedItem.itemtype y = Some TrackedItem.file →
  TrackedItem.hash y ∈ hs →
  addeditems s = ∅ →
  detect_move fs hs y s = (Raise IndexError, s).
Proof.
  intros Hty Hin Hadd. rewrite detect_move_eq.
  rewrite decide_True by done. by rewrite Hadd, dict_values_empty.
Qed.

(** A removed file that matches the only added item takes it. *)
Lemma detect_move_takes_last hs x s kb ib hq root t :
  addeditems s = {[kb := ib]} →
  TrackedItem.path ib = kb →
  TrackedItem.hash ib = Some hq →
  TrackedItem.hash x = Some hq →
  TrackedItem.itemtype x = Some TrackedItem.file →
  TrackedItem.hash x ∈ hs →
  is_Some (removeditems s !! TrackedItem.path x) →
  is_Some (items s !! TrackedItem.path x) →
  kb ≠ TrackedItem.path x →
  TrackedItem.ct x = Some root →
  classify fs (os_path_join root kb) = Some TrackedItem.file →
  st_mtime fs (os_path_join root kb) = Some t →
  ∃ s', detect_move fs hs x s = (Ok tt, s') ∧ addeditems s' = ∅.
Proof.
  intros Hadd Hpb Hhb Hhx Hty Hin [rx Hrx] [ix Hix] Hne Hct Hc Ht.
  rewrite detect_move_eq. rewrite decide_True by done.
  rewrite Hadd, dict_values_singleton.
  rewrite filter_cons_True by congruence.
  rewrite Hpb, lookup_singleton_eq. cbv zeta.
  rewrite Hrx, Hix, Hhb.
  rewrite (move_file fs kb hq x (handles s) root t) by done.
  eexists. split; [done | ]. state_simpl.
  by rewrite Hadd, delete_singleton_eq.
Qed.

End SharedHash.

(** C1, where the program fails it: the snapshot holds two files [a] and
    [c] with the same content hash, neither is enumerated any more, and the
    enumeration yields one new file [b] with that hash. The list
    [addedhashes] is made once, before the loop over the removed items: the
    first of the two takes the added item, the second still finds the hash
    in the list, finds no added item with it and raises [IndexError], in
    whichever order the dict lists the two. *)
Theorem update_raises_on_shared_hash `{Platform} (fs : FileSystem)
    (self : ChangeTracker.t) (raw : string) (h : nat) (a c b : string)
    (oa oc : option string) (ma mc : option Z) (fd : FileData) (t : Z) :
  let root := ChangeTracker.path self in
  let H := md5_digest (data fd) in
  ChangeTracker.allitems self
    = <[c := TrackedItem.mk c (Some root) oc (Some TrackedItem.file) (Some H) mc]>
        {[a := TrackedItem.mk a (Some root) oa (Some TrackedItem.file) (Some H) ma]} →
  a ≠ c → a ≠ b → c ≠ b →
  ChangeTracker.relative root raw = b →
  islink fs (os_path_join root b) = false →
  isfile fs (os_path_join root b) = true →
  open_rb fs (os_path_join root b) = Some fd →
  read_error fd = None →
  st_mtime fs (os_path_join root b) = Some t →
  (ChangeTracker.update fs self [raw] h).1 = Raise IndexError.
Proof.
  intros root Hh Hself Hac Hab Hcb Hrel Hlink Hfile Hopen Herr Ht.
  set (ia := TrackedItem.mk a (Some root) oa (Some TrackedItem.file) (Some Hh) ma) in *.
  set (ic := TrackedItem.mk c (Some root) oc (Some TrackedItem.file) (Some Hh) mc) in *.
  set (ib := TrackedItem.mk b (Some root) None (Some TrackedItem.file)
               (Some Hh) (Some t)).
  set (S0 := <[c := ic]> ({[a := ia]} : gmap string TrackedItem.t)) in *.
  assert (classify fs (os_path_join root b) = Some TrackedItem.file) as Hc
    by (unfold classify; by rewrite Hlink, Hfile).
  assert (S0 !! b = None) as HSb.
  { unfold S0. rewrite lookup_insert_ne by done. by apply lookup_singleton_ne. }
  assert (S0 !! a = Some ia) as HSa.
  { unfold S0. rewrite lookup_insert_ne by done. apply lookup_singleton_eq. }
  assert (S0 !! c = Some ic) as HSc by apply lookup_insert_eq.
  set (s1 := ChangeTracker.State (<[b := ib]> S0) S0 {[b := ib]} ∅ ∅ h []).
  assert (for_each [raw] (ChangeTracker.scan fs root) (ChangeTracker.enter self h)
          = (Ok tt, s1)) as H1.
  { rewrite for_each_one, scan_eq. cbv zeta. rewrite Hrel. state_simpl.
    rewrite Hself. fold ia ic S0. rewrite HSb.
    rewrite (init_file fs b root _ h (data fd) t);
      [ | done | by apply (digest_input_whole fs) | done].
    state_simpl. fold Hh ib. by rewrite delete_id, insert_empty. }
  assert (∀ x y kx ky,
    S0 !! kx = Some x → S0 !! ky = Some y → kx ≠ ky →
    TrackedItem.path x = kx → TrackedItem.path y = ky →
    TrackedItem.ct x = Some root →
    TrackedItem.itemtype x = Some TrackedItem.file →
    TrackedItem.itemtype y = Some TrackedItem.file →
    TrackedItem.hash x = Some Hh → TrackedItem.hash y = Some Hh →
    kx ≠ b →
    (for_each [x; y] (ChangeTracker.detect_move fs [Some Hh]) s1).1
    = Raise IndexError) as Hloop.
  { intros x y kx ky Hx Hy Hne Hpx Hpy Hctx Htx Hty Hhx Hhy Hkx.
    rewrite for_each_two.
    destruct (detect_move_takes_last fs [Some Hh] x s1 b ib Hh root t)
      as (s2 & -> & Hadd); try done.
    - rewrite Hhx. by left.
    - rewrite Hpx. unfold s1. state_simpl. eauto.
    - rewrite Hpx. unfold s1. state_simpl. rewrite lookup_insert_ne by done.
      eauto.
    - by rewrite Hpx.
    - rewrite detect_move_starved; try done. rewrite Hhy. by left. }
  rewrite update_unfold. fold root. rewrite H1. unfold s1 at 1 2. state_simpl.
  rewrite dict_values_singleton. cbn [fmap list_fmap]. fold s1.
  change (TrackedItem.hash ib) with (Some Hh).
  assert (∀ l, (for_each l (ChangeTracker.detect_move fs [Some Hh]) s1).1
               = Raise IndexError →
    (let (o, s2) := for_each l (ChangeTracker.detect_move fs [Some Hh]) s1 in
     match o with
     | Ok _ =>
         let (o0, s3) :=
           for_each (dict_values (ChangeTracker.removeditems s2))
             (ChangeTracker.drop_removed (ChangeTracker.handler self)) s2 in
         match o0 with
         | Ok _ => (Ok tt, reported self s3)
         | Raise e => (Raise e, s3)
         end
     | Raise e => (Raise e, s2)
     end).1 = Raise IndexError) as Hwrap.
  { intros l. destruct (for_each l _ s1) as [[[]|e] s2]; simpl; [done | ].
    by intros ->. }
  apply Hwrap.
  unfold S0. destruct (dict_values_pair a c ia ic Hac) as [-> | ->].
  - by apply (Hloop ia ic a c).
  - by apply (Hloop ic ia c a).
Qed.

Lemma update_raises_on_shared_hash_witness :
  (ChangeTracker.update (H := posix) (one_file "/r/b.txt" "hello" 7 None)
     (tracker (<["c.txt" := file_item "c.txt" None "hello" 5]>
                 {["a.txt" := file_item "a.txt" None "hello" 5]}))
     ["/r/b.txt"] 0).1
  = Raise IndexError.
Proof.
  apply (update_raises_on_shared_hash (H := posix)
           (one_file "/r/b.txt" "hello" 7 None)
           (tracker (<["c.txt" := file_item "c.txt" None "hello" 5]>
                       {["a.txt" := file_item "a.txt" None "hello" 5]}))
           "/r/b.txt" 0 "a.txt" "c.txt" "b.txt" None None (Some 5) (Some 5)
           {| data := "hello"; read_error := None |} 7);
    first [reflexivity | discriminate].
Defined.

Section MoveDetection.
Context `{Platform}.
Import ChangeTracker.

(** The snapshot holds one file [a] with hash [hsh]; the enumeration
    yields one path [b], a readable file whose content hashes to [hsh]. *)
Lemma single_move_run fs self raw h a b op mt content t :
  let root := path self in
  let ia := TrackedItem.mk a (Some root) op (Some TrackedItem.file)
              (Some (md5_digest content)) mt in
  let m := TrackedItem.mk b (Some root) (Some a) (Some TrackedItem.file)
             (Some (md5_digest content))
             (if TrackedItem.newer t mt then Some t else mt) in
  allitems self = {[a := ia]} →
  relative root raw = b →
  a ≠ b →
  classify fs (os_path_join root b) = Some TrackedItem.file →
  digest_input fs (os_path_join root b) = Ok content →
  st_mtime fs (os_path_join root b) = Some t →
  update fs self [raw] h
  = (Ok tt, reported self (State {[b := m]} ∅ ∅ ∅ {[b := m]} h [])).
Proof.
  intros root ia m Hself Hrel Hab Hc Hd Ht.
  set (ib := TrackedItem.mk b (Some root) None (Some TrackedItem.file)
               (Some (md5_digest content)) (Some t)).
  assert (for_each [raw] (scan fs root) (enter self h)
          = (Ok tt, State (<[b := ib]> {[a := ia]}) {[a := ia]} {[b := ib]}
                      ∅ ∅ h [])) as H1.
  { rewrite for_each_one, scan_eq. cbv zeta. rewrite Hrel. state_simpl.
    rewrite Hself, lookup_singleton_ne by done.
    rewrite (init_file fs b root _ h content t) by done. state_simpl.
    by rewrite delete_id, insert_empty by (by apply lookup_singleton_ne). }
  assert (detect_move fs [Some (md5_digest content)] ia
            (State (<[b := ib]> {[a := ia]}) {[a := ia]} {[b := ib]} ∅ ∅ h [])
          = (Ok tt, State {[b := m]} ∅ ∅ ∅ {[b := m]} h [])) as H2.
  { rewrite detect_move_eq. state_simpl.
    rewrite decide_True by (split; [done | by left]).
    rewrite dict_values_singleton, filter_cons_True by done.
    state_simpl. rewrite lookup_singleton_eq. cbv zeta. state_simpl.
    rewrite lookup_insert_ne, !lookup_singleton_eq by done.
    change (TrackedItem.path ib) with b.
    change (TrackedItem.hash ib) with (Some (md5_digest content)).
    change (TrackedItem.path ia) with a.
    rewrite (move_file fs b _ ia h root t) by done. state_simpl.
    change (TrackedItem.path ia) with a. fold m.
    rewrite !delete_singleton_eq, insert_empty. do 3 f_equal.
    apply map_eq. intros k. destruct (decide (k = b)) as [-> | Hk].
    - by rewrite lookup_insert_eq, lookup_singleton_eq.
    - rewrite lookup_insert_ne, lookup_singleton_ne by done.
      rewrite lookup_delete. case_decide; [done | ].
      rewrite lookup_insert_ne by done. by apply lookup_singleton_ne. }
  rewrite update_unfold. fold root. rewrite H1. state_simpl.
  rewrite !dict_values_singleton. cbn [fmap list_fmap].
  change (TrackedItem.hash ib) with (Some (md5_digest content)).
  rewrite for_each_one, H2. state_simpl.
  by rewrite dict_values_empty.
Qed.

End MoveDetection.

(** C2: when the snapshot holds exactly one file [a] with content hash [H]
    and the fresh enumeration holds no [a] but a new file [b] whose content
    hashes to [H], the tick returns with moved = {b, with previous path a},
    with added, removed and changed empty, and with a snapshot that maps
    [b] to the relocated item. *)
Theorem move_is_detected `{Platform} (fs : FileSystem) (self : ChangeTracker.t)
    (raw : string) (h : nat) (a b : string) (op : option string)
    (mt : option Z) (fd : FileData) (t : Z) :
  let root := ChangeTracker.path self in
  let H := md5_digest (data fd) in
  let m := TrackedItem.mk b (Some root) (Some a) (Some TrackedItem.file) (Some H)
             (if TrackedItem.newer t mt then Some t else mt) in
  ChangeTracker.allitems self
    = {[a := TrackedItem.mk a (Some root) op (Some TrackedItem.file) (Some H) mt]} →
  ChangeTracker.relative root raw = b →
  a ≠ b →
  islink fs (os_path_join root b) = false →
  isfile fs (os_path_join root b) = true →
  open_rb fs (os_path_join root b) = Some fd →
  read_error fd = None →
  st_mtime fs (os_path_join root b) = Some t →
  let run := ChangeTracker.update fs self [raw] h in
  run.1 = Ok tt
  ∧ ChangeTracker.moveditems run.2 = {[b := m]}
  ∧ TrackedItem.oldpath m = Some a
  ∧ ChangeTracker.addeditems run.2 = ∅
  ∧ ChangeTracker.removeditems run.2 = ∅
  ∧ ChangeTracker.changeditems run.2 = ∅
  ∧ ChangeTracker.items run.2 = {[b := m]}.
Proof.
  intros root Hh m Hself Hrel Hab Hlink Hfile Hopen Herr Ht run.
  unfold run.
  rewrite (single_move_run fs self raw h a b op mt (data fd) t); try done.
  - unfold reported. by destruct (ChangeTracker.handler self).
  - unfold classify. fold root. by rewrite Hlink, Hfile.
  - by apply (digest_input_whole fs).
Qed.

Lemma move_is_detected_witness :
  let fs := one_file "/r/b.txt" "hello" 7 None in
  let self := tracker {["a.txt" := file_item "a.txt" None "hello" 5]} in
  let m := TrackedItem.mk "b.txt" (Some "/r") (Some "a.txt")
             (Some TrackedItem.file) (Some "md5:hello") (Some 7) in
  let run := ChangeTracker.update (H := posix) fs self ["/r/b.txt"] 0 in
  run.1 = Ok tt
  ∧ ChangeTracker.moveditems run.2 = {["b.txt" := m]}
  ∧ TrackedItem.oldpath m = Some "a.txt"
  ∧ ChangeTracker.addeditems run.2 = ∅
  ∧ ChangeTracker.removeditems run.2 = ∅
  ∧ ChangeTracker.changeditems run.2 = ∅
  ∧ ChangeTracker.items run.2 = {["b.txt" := m]}.
Proof.
  intros fs self m run.
  exact (move_is_detected (H := posix) fs self "/r/b.txt" 0 "a.txt" "b.txt"
           None (Some 5) {| data := "hello"; read_error := None |} 7
           eq_refl eq_refl ltac:(discriminate) eq_refl eq_refl eq_refl eq_refl
           eq_refl).
Defined.

(** C10: key coherence. When every path of the snapshot maps to an item
    whose own [path] is that key, this still holds after a tick, however
    the tick ends; the dict of the moved items, into which a relocated item
    goes under its new path, is keyed by path as well. *)
Theorem update_keeps_key_coherence `{Platform} (fs : FileSystem)
    (self : ChangeTracker.t) (listing : list string) (h : nat) :
  coherent (ChangeTracker.allitems self) →
  coherent (ChangeTracker.items (ChangeTracker.update fs self listing h).2)
  ∧ coherent (ChangeTracker.moveditems (ChangeTracker.update fs self listing h).2).
Proof. apply update_coherent. Qed.

Lemma update_keeps_key_coherence_witness :
  coherent {["a.txt" := file_item "a.txt" None "hello" 5]}
  ∧ coherent (ChangeTracker.items
       (ChangeTracker.update (H := posix) (one_file "/r/b.txt" "hello" 7 None)
          (tracker {["a.txt" := file_item "a.txt" None "hello" 5]})
          ["/r/b.txt"] 0).2).
Proof.
  assert (coherent {["a.txt" := file_item "a.txt" None "hello" 5]}) as Hc
    by (by apply map_Forall_singleton).
  split; [exact Hc | ].
  apply (update_keeps_key_coherence (H := posix)
           (one_file "/r/b.txt" "hello" 7 None)
           (tracker {["a.txt" := file_item "a.txt" None "hello" 5]})
           ["/r/b.txt"] 0 Hc).
Defined.



(** C3, as stated, fails: [a.txt] is moved to [b.txt] in one tick; the next
    tick, on the same filesystem, moves nothing, and the item under [b.txt]
    still has [oldpath = a.txt]. No statement of the program clears
    [oldpath]. *)
Lemma oldpath_survives_next_tick :
  let fs := one_file "/r/b.txt" "hello" 7 None in
  let self := tracker {["a.txt" := file_item "a.txt" None "hello" 5]} in
  let first := ChangeTracker.update (H := posix) fs self ["/r/b.txt"] 0 in
  let second :=
    ChangeTracker.update (H := posix) fs
      (ChangeTracker.set_allitems (ChangeTracker.items first.2) self)
      ["/r/b.txt"] 0 in
  first.1 = Ok tt
  ∧ ChangeTracker.moveditems first.2 !! "b.txt"
    = Some (file_item "b.txt" (Some "a.txt") "hello" 7)
  ∧ second.1 = Ok tt
  ∧ ChangeTracker.moveditems second.2 = ∅
  ∧ TrackedItem.oldpath <$> ChangeTracker.items second.2 !! "b.txt"
    = Some (Some "a.txt").
Proof. by vm_compute. Qed.

(** C3, amended: after a tick that returned, an item of the snapshot either
    was moved in this tick, and then its [oldpath] is the path under which
    the old snapshot held it; or it was in the old snapshot under the same
    path, and then its [oldpath] is what it was before the tick, set or
    not; or it is new, reported as added, and then it has no [oldpath]. *)
Theorem oldpath_after_tick `{Platform} (fs : FileSystem)
    (self : ChangeTracker.t) (listing : list string) (h : nat)
    (st : ChangeTracker.state) (k : string) (i : TrackedItem.t) :
  coherent (ChangeTracker.allitems self) →
  owned (ChangeTracker.path self) (ChangeTracker.allitems self) →
  ChangeTracker.update fs self listing h = (Ok tt, st) →
  ChangeTracker.items st !! k = Some i →
  (ChangeTracker.moveditems st !! k = Some i
   ∧ ChangeTracker.allitems self !! k = None
   ∧ ∃ q i0, ChangeTracker.allitems self !! q = Some i0
             ∧ TrackedItem.oldpath i = Some q)
  ∨ (ChangeTracker.moveditems st !! k = None
     ∧ ∃ i0, ChangeTracker.allitems self !! k = Some i0
             ∧ TrackedItem.oldpath i = TrackedItem.oldpath i0)
  ∨ (ChangeTracker.moveditems st !! k = None
     ∧ ChangeTracker.allitems self !! k = None
     ∧ ChangeTracker.addeditems st !! k = Some i
     ∧ TrackedItem.oldpath i = None).
Proof.
  intros Hcoh Hown Hrun Hk.
  destruct (update_post fs self listing h st Hcoh Hown Hrun)
    as (_ & _ & _ & _ & _ & Hadd & Hori).
  destruct (Hori k i Hk)
    as [(Hm & HS & q & i0 & Hq & Ho & _) | (Hm & [(i0 & Hi0 & Ho) | (Ha & Ho)])].
  - left. eauto 10.
  - right. left. eauto.
  - right. right. destruct (Hadd k i Ha) as [_ HS]. done.
Qed.

Lemma oldpath_after_tick_witness :
  let fs := one_file "/r/b.txt" "hello" 7 None in
  let self := tracker {["b.txt" := file_item "b.txt" (Some "a.txt") "hello" 7]} in
  let st := (ChangeTracker.update (H := posix) fs self ["/r/b.txt"] 0).2 in
  ChangeTracker.moveditems st !! "b.txt" = None
  ∧ TrackedItem.oldpath <$> ChangeTracker.items st !! "b.txt"
    = Some (Some "a.txt").
Proof.
  intros fs self st.
  pose proof (oldpath_after_tick (H := posix) fs self ["/r/b.txt"] 0 st "b.txt"
    (file_item "b.txt" (Some "a.txt") "hello" 7)) as Hw.
  destruct Hw as [(Hm & _) | [(Hm & i0 & Hi0 & Ho) | (_ & HS & _)]].
  - by apply map_Forall_singleton.
  - by apply map_Forall_singleton.
  - reflexivity.
  - reflexivity.
  - discriminate Hm.
  - split; [exact Hm | reflexivity].
  - discriminate HS.
Defined.




Section Refresh.
Context `{Platform}.
Variable fs : FileSystem.

Lemma newer_true t old :
  TrackedItem.newer t old = true
  ↔ match old with Some o => o < t | None => True end.
Proof.
  destruct old as [o|]; simpl; [ | done]. apply bool_decide_eq_true.
Qed.


End Refresh.







Section Persistence.
Context `{Platform} `{Pickler}.
Import ChangeTracker.

Lemma by_path_from_other (l : list TrackedItem.t) (d : gmap string TrackedItem.t) k :
  (∀ i, i ∈ l → TrackedItem.path i ≠ k) →
  foldl (λ d i, <[TrackedItem.path i := i]> d) d l !! k = d !! k.
Proof.
  revert d. induction l as [|x l IH]; intros d Hl; simpl; [done | ].
  rewrite IH by (intros i Hi; apply Hl; by right).
  apply lookup_insert_ne, Hl. by left.
Qed.

Lemma by_path_from_elem (l : list TrackedItem.t) (d : gmap string TrackedItem.t) i :
  NoDup (TrackedItem.path <$> l) → i ∈ l →
  foldl (λ d i, <[TrackedItem.path i := i]> d) d l !! TrackedItem.path i = Some i.
Proof.
  revert d. induction l as [|x l IH]; intros d Hnd Hi; simpl.
  - by apply elem_of_nil in Hi.
  - rewrite fmap_cons in Hnd. apply NoDup_cons in Hnd as [Hx Hnd].
    apply elem_of_cons in Hi as [-> | Hi]; [ | by apply IH].
    rewrite by_path_from_other; [apply lookup_insert_eq | ].
    intros j Hj Hpath. apply Hx. rewrite <- Hpath.
    by apply list_elem_of_fmap_2.
Qed.

(** Keyed by path, a dict is what the comprehension of [savestate] builds
    from its values. *)
Lemma by_path_coherent (d : gmap string TrackedItem.t) :
  coherent d → by_path (dict_values d) = d.
Proof.
  intros Hcoh. apply map_eq. intros k. unfold by_path.
  assert (NoDup (TrackedItem.path <$> dict_values d)) as Hnd.
  { rewrite (dict_values_perm _ d).
    assert (TrackedItem.path <$> (map_to_list d).*2 = (map_to_list d).*1) as ->.
    { assert (Forall (λ ki, TrackedItem.path ki.2 = ki.1) (map_to_list d)) as Hall.
      { apply Forall_forall. intros [k' i] Hin.
        apply elem_of_map_to_list in Hin. by apply (Hcoh k' i). }
      induction Hall as [|[k' i] l Hki _ IH]; [done | ].
      rewrite !fmap_cons. cbn [fst snd] in *. by f_equal. }
    apply NoDup_fst_map_to_list. }
  destruct (d !! k) as [i|] eqn:Hk.
  - rewrite <- (Hcoh k i Hk). apply by_path_from_elem; [done | ].
    apply elem_of_dict_values. eauto.
  - rewrite by_path_from_other; [done | ].
    intros i [k' Hi]%elem_of_dict_values Hpath.
    rewrite (Hcoh k' i Hi) in Hpath. congruence.
Qed.

Lemma savestate_eq self filename d :
  coherent (allitems self) →
  savestate self filename d
  = if writable d (default class_name filename) then
      (Ok tt,
       {| files := <[default class_name filename :=
                       pickle_dumps (TrackedItem.set_ct None <$> allitems self)]>
                     (files d);
          readable := readable d; writable := writable d |})
    else (Raise IOError, d).
Proof. intros Hcoh. unfold savestate. by rewrite by_path_coherent. Qed.

End Persistence.

(** C7: round trip. A snapshot keyed by path that [savestate] wrote to a
    file comes back from [loadstate] on that file with every key and, under
    it, the item with its path, type, hash and modification time (and old
    path) as they were and with the loading tracker as owner; for a snapshot
    owned by the loading tracker that is the snapshot itself. The pickled
    dict holds no reference to a tracker. *)
Theorem load_after_save `{Platform} `{Pickler} (self loader : ChangeTracker.t)
    (filename : option string) (d : Disk) :
  let f := default ChangeTracker.class_name filename in
  coherent (ChangeTracker.allitems self) →
  writable d f = true →
  readable d f = true →
  ∃ d' saved,
    ChangeTracker.savestate self filename d = (Ok tt, d')
    ∧ files d' !! f = Some (pickle_dumps saved)
    ∧ map_Forall (λ _ i, TrackedItem.ct i = None) saved
    ∧ ∃ loaded,
        ChangeTracker.loadstate loader filename d' = (Ok tt, loaded)
        ∧ (∀ k, ChangeTracker.allitems loaded !! k
                = TrackedItem.set_ct (Some (ChangeTracker.path loader))
                  <$> ChangeTracker.allitems self !! k)
        ∧ (∀ k i, ChangeTracker.allitems self !! k = Some i →
             ∃ j, ChangeTracker.allitems loaded !! k = Some j
                  ∧ TrackedItem.path j = TrackedItem.path i
                  ∧ TrackedItem.itemtype j = TrackedItem.itemtype i
                  ∧ TrackedItem.hash j = TrackedItem.hash i
                  ∧ TrackedItem.modtime j = TrackedItem.modtime i)
        ∧ (owned (ChangeTracker.path loader) (ChangeTracker.allitems self) →
           ChangeTracker.allitems loaded = ChangeTracker.allitems self).
Proof.
  intros f Hcoh Hw Hr. rewrite savestate_eq by done. fold f. rewrite Hw.
  eexists _, (TrackedItem.set_ct None <$> ChangeTracker.allitems self).
  split; [done | ]. simpl. split; [by rewrite lookup_insert_eq | ].
  split.
  { intros k i Hk. apply lookup_fmap_Some in Hk as (j & <- & _). done. }
  unfold ChangeTracker.loadstate. fold f. simpl.
  rewrite Hr, lookup_insert_eq, pickle_loads_dumps.
  eexists. split; [done | ]. simpl.
  assert (∀ k, (TrackedItem.set_ct (Some (ChangeTracker.path loader))
                <$> (TrackedItem.set_ct None <$> ChangeTracker.allitems self)) !! k
               = TrackedItem.set_ct (Some (ChangeTracker.path loader))
                 <$> ChangeTracker.allitems self !! k) as Hlookup.
  { intros k. rewrite !lookup_fmap.
    by destruct (ChangeTracker.allitems self !! k). }
  split; [exact Hlookup | ]. split.
  - intros k i Hk. rewrite Hlookup, Hk. simpl. eauto 10.
  - intros Hown. apply map_eq. intros k. rewrite Hlookup.
    destruct (ChangeTracker.allitems self !! k) as [i|] eqn:Hk; [ | done].
    simpl. f_equal. pose proof (Hown k i Hk) as Hct. simpl in Hct.
    destruct i; simpl in *. by subst.
Qed.

Lemma load_after_save_witness :
  let self := tracker {["a.txt" := file_item "a.txt" None "hello" 5]} in
  let loader := tracker ∅ in
  let d := empty_disk in
  ∃ d' saved,
    ChangeTracker.savestate (H := posix) self None d = (Ok tt, d')
    ∧ files d' !! ChangeTracker.class_name = Some saved
    ∧ map_Forall (λ _ i, TrackedItem.ct i = None) saved
    ∧ ∃ loaded,
        ChangeTracker.loadstate loader None d' = (Ok tt, loaded)
        ∧ (owned "/r" (ChangeTracker.allitems self) →
           ChangeTracker.allitems loaded = ChangeTracker.allitems self).
Proof.
  intros self loader d.
  destruct (load_after_save (H := posix) (H0 := identity_pickler) self loader
              None d) as (d' & saved & Hsave & Hfile & Hct & loaded & Hload & _ & _ & Hsame).
  - by apply map_Forall_singleton.
  - reflexivity.
  - reflexivity.
  - exists d', saved. split_and!; try done. by exists loaded.
Defined.

(** C8, as stated, fails: [loadstate] on a file that does not exist leaves
    a tracker that holds an item with that item, not with an empty
    snapshot. *)
Lemma load_of_missing_file_keeps_items :
  let self := tracker {["a.txt" := file_item "a.txt" None "hello" 5]} in
  let d := empty_disk in
  ChangeTracker.loadstate self None d = (Ok tt, self)
  ∧ ChangeTracker.allitems self !! "a.txt"
    = Some (file_item "a.txt" None "hello" 5).
Proof. by vm_compute. Qed.

(** C8, amended: [loadstate] on a file that does not exist or cannot be
    read returns without an error and leaves the tracker as it was; the
    snapshot is empty afterwards when it was empty before, as it is in a
    tracker just constructed. *)
Theorem load_of_missing_file `{Pickler} (self : ChangeTracker.t)
    (filename : option string) (d : Disk) :
  let f := default ChangeTracker.class_name filename in
  files d !! f = None ∨ readable d f = false →
  ChangeTracker.loadstate self filename d = (Ok tt, self)
  ∧ (ChangeTracker.allitems self = ∅ →
     ChangeTracker.allitems (ChangeTracker.loadstate self filename d).2 = ∅).
Proof.
  intros f Hmissing.
  assert (ChangeTracker.loadstate self filename d = (Ok tt, self)) as Heq.
  { unfold ChangeTracker.loadstate. fold f.
    destruct Hmissing as [-> | ->]; [by destruct (readable d f) | done]. }
  split; [exact Heq | ]. by rewrite Heq.
Qed.

Lemma load_of_missing_file_witness :
  ChangeTracker.loadstate (tracker ∅) None empty_disk = (Ok tt, tracker ∅).
Proof.
  apply (load_of_missing_file (H := identity_pickler) (tracker ∅) None
           empty_disk).
  left. reflexivity.
Defined.

(** * Further properties *)

(** ** TrackedItem *)

(** X1: a refresh with hashing that returned has left the item such that
    the next refresh, on the same filesystem, returns [false] and changes
    neither the item nor the number of open files. *)
Theorem refresh_is_idempotent `{Platform} (fs : FileSystem) (init : bool)
    (i : TrackedItem.t) (h : nat) (b : bool) (fr : TrackedItem.frame) :
  TrackedItem.update fs init true (TrackedItem.Frame i h) = (Ok b, fr) →
  TrackedItem.update fs false true fr = (Ok false, fr).
Proof.
  intros Hrun. pose proof (update_settles fs _ _ _ _ _ Hrun) as Hst.
  destruct fr as [i' h']. apply Hst.
Qed.

Lemma refresh_is_idempotent_witness :
  let fs := one_file "/r/f.txt" "hello" 7 None in
  let fr := (TrackedItem.update (H := posix) fs false true
               (TrackedItem.Frame (file_item "f.txt" None "old" 3) 0)).2 in
  TrackedItem.update (H := posix) fs false true fr = (Ok false, fr).
Proof.
  intros fs fr.
  apply (refresh_is_idempotent (H := posix) fs false
           (file_item "f.txt" None "old" 3) 0 true fr).
  unfold fr. apply run_eq. vm_compute. reflexivity.
Defined.

(** X2: a refresh assigns neither the path, the owner nor the old path of
    the item, whether it returns or raises. *)
Theorem refresh_keeps_identity `{Platform} (fs : FileSystem)
    (init dohash : bool) (i : TrackedItem.t) (h : nat) :
  let i' := TrackedItem.self
              (TrackedItem.update fs init dohash (TrackedItem.Frame i h)).2 in
  TrackedItem.path i' = TrackedItem.path i
  ∧ TrackedItem.ct i' = TrackedItem.ct i
  ∧ TrackedItem.oldpath i' = TrackedItem.oldpath i.
Proof.
  intros i'. unfold i'.
  destruct (TrackedItem.update fs init dohash (TrackedItem.Frame i h))
    as [r fr] eqn:Hrun.
  by apply (update_keeps fs init dohash i h r fr).
Qed.

(** X3: the link test comes first. An item whose path is a symbolic link
    is typed [link] and gets no hash and no modification time, and the
    refresh returns [false], whatever the link points to: the file behind
    it is neither opened nor asked for its time. *)
Theorem refresh_of_symlink `{Platform} (fs : FileSystem) (init dohash : bool)
    (i : TrackedItem.t) (root : string) (h : nat) :
  TrackedItem.ct i = Some root →
  islink fs (os_path_join root (TrackedItem.path i)) = true →
  TrackedItem.update fs init dohash (TrackedItem.Frame i h)
  = (Ok false,
     TrackedItem.Frame
       (TrackedItem.mk (TrackedItem.path i) (Some root) (TrackedItem.oldpath i)
          (Some TrackedItem.link) None None) h).
Proof.
  intros Hct Hlink. rewrite update_refreshed. unfold refreshed, classify.
  destruct i as [p c o k hv mt]. simpl in *. subst c.
  rewrite Hlink. by rewrite decide_False.
Qed.

Lemma refresh_of_symlink_witness :
  let fs := {| islink := λ _, true; isfile := λ _, true; isdir := λ _, false;
               st_mtime := λ _, None; open_rb := λ _, None |} in
  TrackedItem.update (H := posix) fs false true
    (TrackedItem.Frame (file_item "f.txt" None "old" 3) 0)
  = (Ok false,
     TrackedItem.Frame
       (TrackedItem.mk "f.txt" (Some "/r") None (Some TrackedItem.link) None None) 0).
Proof.
  intros fs.
  exact (refresh_of_symlink (H := posix) fs false true
           (file_item "f.txt" None "old" 3) "/r" 0 eq_refl eq_refl).
Defined.

(** X4: [move] with a hash does not read the file. Its outcome is the same
    on two filesystems that agree on the type probes and on the
    modification times, however they differ in what [open] gives. *)
Theorem move_with_hash_reads_no_file `{Platform} (fs fs' : FileSystem)
    (newpath newhash : string) (fr : TrackedItem.frame) :
  (∀ p, islink fs p = islink fs' p) →
  (∀ p, isfile fs p = isfile fs' p) →
  (∀ p, isdir fs p = isdir fs' p) →
  (∀ p, st_mtime fs p = st_mtime fs' p) →
  TrackedItem.move fs newpath (Some newhash) fr
  = TrackedItem.move fs' newpath (Some newhash) fr.
Proof.
  intros Hlink Hfile Hdir Htime. destruct fr as [i h].
  destruct (decide (newpath = TrackedItem.path i)) as [Heq | Hne].
  - by rewrite !move_same.
  - rewrite !move_eq by done. cbv zeta. rewrite !update_refreshed.
    unfold refreshed, classify. cbn [TrackedItem.ct TrackedItem.set_path
      TrackedItem.set_oldpath TrackedItem.path].
    destruct (TrackedItem.ct i) as [root|]; [ | done].
    by rewrite Hlink, Hfile, Hdir, Htime.
Qed.

Lemma move_with_hash_reads_no_file_witness :
  TrackedItem.move (H := posix) (one_file "/r/b.txt" "hello" 7 None)
    "b.txt" (Some "md5:hello")
    (TrackedItem.Frame (file_item "a.txt" None "hello" 5) 0)
  = TrackedItem.move (H := posix) (one_file "/r/b.txt" "other" 7 (Some 0%nat))
      "b.txt" (Some "md5:hello")
      (TrackedItem.Frame (file_item "a.txt" None "hello" 5) 0).
Proof.
  apply (move_with_hash_reads_no_file (H := posix)); reflexivity.
Defined.

(** ** ChangeTracker.update: what a tick reports *)

Section Shapes.
Context `{Platform}.
Variable fs : FileSystem.
Import ChangeTracker.

(** A run of [scan] that returns refreshed a tracked item, and may have
    recorded it as changed, or created an item and recorded it as added. *)
Lemma scan_ok root p s s' :
  scan fs root p s = (Ok tt, s') →
  let k := relative root p in
  removeditems s' = delete k (removeditems s)
  ∧ moveditems s' = moveditems s
  ∧ calls s' = calls s
  ∧ ((∃ i b fr,
        items s !! k = Some i
        ∧ TrackedItem.update fs false true (TrackedItem.Frame i (handles s))
          = (Ok b, fr)
        ∧ items s' = <[k := TrackedItem.self fr]> (items s)
        ∧ addeditems s' = addeditems s
        ∧ changeditems s'
          = (if b then <[k := TrackedItem.self fr]> (changeditems s)
             else changeditems s)
        ∧ handles s' = TrackedItem.handles fr)
     ∨ (∃ fr,
          items s !! k = None
          ∧ TrackedItem.__init__ fs k root
              (TrackedItem.Frame TrackedItem.blank (handles s)) = (Ok tt, fr)
          ∧ items s' = <[k := TrackedItem.self fr]> (items s)
          ∧ addeditems s' = <[k := TrackedItem.self fr]> (addeditems s)
          ∧ changeditems s' = changeditems s
          ∧ handles s' = TrackedItem.handles fr)).
Proof.
  rewrite scan_eq. cbv zeta. destruct (items s !! _) as [i|] eqn:Hi.
  - destruct (TrackedItem.update _ _ _ _) as [[b|e] fr] eqn:Hu; [ | done].
    intros [= <-]. split_and!; try (by destruct b, s). left.
    exists i, b, fr. split_and!; try done; by destruct b, s.
  - destruct (TrackedItem.__init__ _ _ _ _) as [[[]|e] fr] eqn:Hu; [ | done].
    intros [= <-]. split_and!; try (by destruct s). right.
    exists fr. split_and!; try done; by destruct s.
Qed.

(** A run of [detect_move] that returns either did nothing or moved the
    removed file onto the first added item with its hash. *)
Lemma detect_move_ok hs r s s' :
  detect_move fs hs r s = (Ok tt, s') →
  s' = s
  ∨ ∃ a fr,
      TrackedItem.itemtype r = Some TrackedItem.file
      ∧ a ∈ dict_values (addeditems s)
      ∧ TrackedItem.hash a = TrackedItem.hash r
      ∧ is_Some (addeditems s !! TrackedItem.path a)
      ∧ is_Some (removeditems s !! TrackedItem.path r)
      ∧ is_Some (items s !! TrackedItem.path r)
      ∧ TrackedItem.move fs (TrackedItem.path a) (TrackedItem.hash a)
          (TrackedItem.Frame r (handles s)) = (Ok tt, fr)
      ∧ s' = State
               (<[TrackedItem.path (TrackedItem.self fr) := TrackedItem.self fr]>
                  (delete (TrackedItem.path r) (items s)))
               (delete (TrackedItem.path r) (removeditems s))
               (delete (TrackedItem.path a) (addeditems s))
               (changeditems s)
               (<[TrackedItem.path (TrackedItem.self fr) := TrackedItem.self fr]>
                  (moveditems s))
               (TrackedItem.handles fr) (calls s).
Proof.
  rewrite detect_move_eq. case_decide as Hcond; [ | intros [= <-]; by left].
  destruct (filter _ _) as [|a l] eqn:Hfilter; [done | ].
  assert (a ∈ filter (λ i, TrackedItem.hash i = TrackedItem.hash r)
                (dict_values (addeditems s))) as Hin
    by (rewrite Hfilter; by left).
  apply list_elem_of_filter in Hin as [Hhash Hin].
  destruct (addeditems s !! _) as [a'|] eqn:Ha; [ | done]. cbv zeta.
  destruct (removeditems s !! _) as [r'|] eqn:Hr; [ | done].
  destruct (items s !! _) as [r''|] eqn:Hi; [ | done].
  destruct (TrackedItem.move _ _ _ _) as [[[]|e] fr] eqn:Hmove; [ | done].
  intros [= <-]. right. exists a, fr.
  split_and!; first [done | by eauto | by destruct Hcond | by destruct s].
Qed.

End Shapes.

Section Events.
Context `{Platform}.
Variable fs : FileSystem.
Variable root : string.
Variable S0 : gmap string TrackedItem.t.
Variable L : list string.
Import ChangeTracker.

(** A refresh returns [true] only on a file whose time on the filesystem
    is greater than the stored one, and stores that time. *)
Lemma update_true dohash i h fr r :
  TrackedItem.ct i = Some r →
  TrackedItem.update fs false dohash (TrackedItem.Frame i h) = (Ok true, fr) →
  ∃ t, st_mtime fs (os_path_join r (TrackedItem.path i)) = Some t
       ∧ TrackedItem.newer t (TrackedItem.modtime i) = true
       ∧ TrackedItem.modtime (TrackedItem.self fr) = Some t
       ∧ TrackedItem.itemtype (TrackedItem.self fr) = Some TrackedItem.file.
Proof.
  intros Hct. rewrite update_refreshed. unfold refreshed. rewrite Hct.
  case_decide as Hk; [ | done].
  destruct (if dohash then _ else _) as [hv|e]; [ | done].
  destruct (st_mtime fs _) as [t|]; [ | done].
  destruct (TrackedItem.newer t (TrackedItem.modtime i)) eqn:Hn; [ | done].
  intros [= <-]. exists t. simpl. by rewrite Hk.
Qed.

(** What the first loop keeps about the changed items. *)
Lemma scan_changed p s s' :
  relative root p ∈ L →
  scanning fs root S0 L s →
  (∀ k i, changeditems s !! k = Some i →
     items s !! k = Some i ∧ removeditems s !! k = None
     ∧ ∃ i0 t, S0 !! k = Some i0
               ∧ st_mtime fs (os_path_join root k) = Some t
               ∧ TrackedItem.newer t (TrackedItem.modtime i0) = true
               ∧ TrackedItem.modtime i = Some t
               ∧ TrackedItem.itemtype i = Some TrackedItem.file) →
  scan fs root p s = (Ok tt, s') →
  (∀ k i, changeditems s' !! k = Some i →
     items s' !! k = Some i ∧ removeditems s' !! k = None
     ∧ ∃ i0 t, S0 !! k = Some i0
               ∧ st_mtime fs (os_path_join root k) = Some t
               ∧ TrackedItem.newer t (TrackedItem.modtime i0) = true
               ∧ TrackedItem.modtime i = Some t
               ∧ TrackedItem.itemtype i = Some TrackedItem.file).
Proof.
  intros HL (Hrec & _ & _) Hch Hrun.
  destruct (scan_ok fs root p s s' Hrun) as (Hrm & _ & _ & Hcase).
  set (kp := relative root p) in *.
  destruct Hrec as [Hcoh Hown Hrem Hset _ _].
  destruct Hcase as [(i0 & b & fr & Hi0 & Hu & Hit & _ & Hchd & _)
                    | (fr & Hi0 & _ & Hit & _ & Hchd & _)].
  - assert (removeditems s !! kp = None → b = false ∧ TrackedItem.self fr = i0)
      as Hquiet.
    { intros Hnone. destruct (Hset _ _ Hi0 Hnone) as [Hst _].
      rewrite (Hst (handles s)) in Hu. by injection Hu as <- <-. }
    intros k i Hk. rewrite Hit, Hrm.
    destruct (decide (k = kp)) as [-> | Hne].
    + rewrite lookup_insert_eq, lookup_delete_eq.
      destruct b.
      * rewrite Hchd, lookup_insert_eq in Hk. injection Hk as <-.
        split; [done | ]. split; [done | ].
        destruct (removeditems s !! kp) as [i1|] eqn:Hrmk;
          [ | by destruct Hquiet].
        destruct (Hrem _ _ Hrmk) as [HS Hi1].
        assert (i1 = i0) as -> by congruence.
        pose proof (Hown _ _ Hi0) as Hct. simpl in Hct.
        destruct (update_true _ _ _ _ _ Hct Hu) as (t & Ht & Hn & Hm & Hty).
        rewrite (Hcoh _ _ Hi0) in Ht. eauto 10.
      * rewrite Hchd in Hk. destruct (Hch _ _ Hk) as (Hi & Hnone & Hrest).
        destruct (Hquiet Hnone) as [_ ->]. split; [congruence | done].
    + rewrite lookup_insert_ne, lookup_delete_ne by done.
      apply Hch. destruct b; [ | by rewrite Hchd in Hk].
      by rewrite Hchd, lookup_insert_ne in Hk.
  - intros k i Hk. rewrite Hchd in Hk.
    destruct (Hch _ _ Hk) as (Hi & Hnone & Hrest). rewrite Hit, Hrm.
    assert (k ≠ kp) by (intros ->; congruence).
    by rewrite lookup_insert_ne, lookup_delete_ne.
Qed.

(** What the first loop sets up for a tracked file whose time on the
    filesystem is greater than the stored one: once scanned, it is among
    the changed items. *)
Lemma scan_detects k i0 t p s s' :
  S0 !! k = Some i0 →
  st_mtime fs (os_path_join root k) = Some t →
  TrackedItem.newer t (TrackedItem.modtime i0) = true →
  classify fs (os_path_join root k) = Some TrackedItem.file →
  scanning fs root S0 L s →
  (removeditems s !! k = None → is_Some (changeditems s !! k)) →
  scan fs root p s = (Ok tt, s') →
  (removeditems s' !! k = None → is_Some (changeditems s' !! k)).
Proof.
  intros HS Ht Hn Hfile (Hrec & _ & _) Hinv Hrun.
  destruct (scan_ok fs root p s s' Hrun) as (Hrm & _ & _ & Hcase).
  set (kp := relative root p) in *.
  destruct Hrec as [Hcoh Hown Hrem Hset _ _].
  assert (∀ x, is_Some (changeditems s !! x) → is_Some (changeditems s' !! x))
    as Hmono.
  { intros x Hx.
    destruct Hcase as [(i & b & fr & _ & _ & _ & _ & -> & _)
                      | (fr & _ & _ & _ & _ & -> & _)]; [ | done].
    destruct b; [ | done]. rewrite lookup_insert. by case_decide. }
  rewrite Hrm. destruct (decide (k = kp)) as [Heq | Hne].
  - intros _. destruct (removeditems s !! k) as [i1|] eqn:Hrmk;
      [ | by apply Hmono, Hinv].
    destruct (Hrem _ _ Hrmk) as [HS1 Hi1].
    assert (i1 = i0) as -> by congruence.
    destruct Hcase as [(i & b & fr & Hi & Hu & _ & _ & -> & _)
                      | (fr & Hi & _)]; [ | congruence].
    fold kp in Hi. rewrite <- Heq in Hi.
    assert (i = i0) as -> by congruence.
    assert (b = true) as ->.
    { revert Hu. rewrite update_refreshed. unfold refreshed.
      pose proof (Hown _ _ Hi1) as Hct. simpl in Hct. rewrite Hct.
      rewrite (Hcoh _ _ Hi1), Hfile, Ht, Hn. rewrite decide_True by done.
      destruct (digest_input fs _); [ | done]. by intros [= <- _]. }
    rewrite <- Heq, lookup_insert_eq. eauto.
  - rewrite lookup_delete_ne by done. intros Hnone. by apply Hmono, Hinv.
Qed.

(** What the second loop keeps about the moved and the changed items. *)
Lemma detect_move_events hs r s s' :
  S0 !! TrackedItem.path r = Some r →
  reconciling fs root S0 L s →
  (∀ k m, moveditems s !! k = Some m →
     items s !! k = Some m ∧ removeditems s !! k = None
     ∧ addeditems s !! k = None ∧ S0 !! k = None
     ∧ ∃ q, TrackedItem.oldpath m = Some q ∧ is_Some (S0 !! q)
            ∧ items s !! q = None ∧ removeditems s !! q = None) →
  (∀ k i, changeditems s !! k = Some i →
     items s !! k = Some i ∧ removeditems s !! k = None ∧ is_Some (S0 !! k)) →
  detect_move fs hs r s = (Ok tt, s') →
  (∀ k m, moveditems s' !! k = Some m →
     items s' !! k = Some m ∧ removeditems s' !! k = None
     ∧ addeditems s' !! k = None ∧ S0 !! k = None
     ∧ ∃ q, TrackedItem.oldpath m = Some q ∧ is_Some (S0 !! q)
            ∧ items s' !! q = None ∧ removeditems s' !! q = None)
  ∧ (∀ k i, changeditems s' !! k = Some i →
       items s' !! k = Some i ∧ removeditems s' !! k = None ∧ is_Some (S0 !! k))
  ∧ changeditems s' = changeditems s.
Proof.
  intros Hr Hrec Hmv Hch Hrun.
  destruct (detect_move_ok fs hs r s s' Hrun)
    as [-> | (a & fr & Hty & Ha & Hhash & _ & [r' Hrmr] & _ & Hmove & ->)];
    [done | ].
  apply elem_of_dict_values in Ha as [ka Hka].
  destruct Hrec as [Hcoh Hown Hrem Hset Hadd Hori].
  destruct (Hadd _ _ Hka) as (Hita & Hrma & HSa).
  pose proof (Hcoh _ _ Hita) as Hpa. simpl in Hpa.
  set (kr := TrackedItem.path r) in *.
  assert (ka ≠ kr) as Hne by (intros ->; congruence).
  rewrite Hpa in *.
  destruct (move_run fs _ _ _ _ _ Hne Hmove) as (Hpm & _ & Hom & _).
  set (m := TrackedItem.self fr) in *. rewrite Hpm. simpl.
  split; [ | split; [ | done]].
  - intros k x Hk. destruct (decide (k = ka)) as [-> | Hka'].
    + rewrite lookup_insert_eq in Hk. injection Hk as <-.
      rewrite !lookup_insert_eq, !lookup_delete_eq.
      rewrite lookup_delete_ne by done.
      split_and!; try done. exists kr. rewrite Hom.
      split_and!.
      * done.
      * rewrite Hr. by eauto.
      * rewrite lookup_insert_ne by done. apply lookup_delete_eq.
      * apply lookup_delete_eq.
    + rewrite lookup_insert_ne in Hk by done.
      destruct (Hmv _ _ Hk) as (Hi & Hrmk & Hadk & HSk & q & Hq & HSq & Hiq & Hrq).
      assert (k ≠ kr) by (intros ->; congruence).
      rewrite lookup_insert_ne, !lookup_delete_ne by done.
      split_and!; try done. exists q.
      assert (q ≠ ka) by (intros ->; rewrite HSa in HSq; by destruct HSq).
      rewrite lookup_insert_ne by done.
      split_and!; try done.
      * rewrite lookup_delete. by case_decide.
      * rewrite lookup_delete. by case_decide.
  - intros k i Hk. destruct (Hch _ _ Hk) as (Hi & Hrmk & HSk).
    assert (k ≠ kr) by (intros ->; congruence).
    assert (k ≠ ka) by (intros ->; rewrite HSa in HSk; by destruct HSk).
    by rewrite lookup_insert_ne, !lookup_delete_ne.
Qed.

End Events.

Section Reports.
Context `{Platform}.
Variable fs : FileSystem.
Import ChangeTracker.

(** What holds of the changed and of the moved items after a tick that
    returns. *)
Lemma update_events self listing h st :
  coherent (allitems self) →
  owned (path self) (allitems self) →
  update fs self listing h = (Ok tt, st) →
  let S0 := allitems self in
  (∀ k i, changeditems st !! k = Some i →
     items st !! k = Some i ∧ removeditems st !! k = None
     ∧ ∃ i0 t, S0 !! k = Some i0
               ∧ st_mtime fs (os_path_join (path self) k) = Some t
               ∧ TrackedItem.newer t (TrackedItem.modtime i0) = true
               ∧ TrackedItem.modtime i = Some t
               ∧ TrackedItem.itemtype i = Some TrackedItem.file)
  ∧ (∀ k m, moveditems st !! k = Some m →
       items st !! k = Some m ∧ removeditems st !! k = None
       ∧ addeditems st !! k = None ∧ S0 !! k = None
       ∧ ∃ q, TrackedItem.oldpath m = Some q ∧ is_Some (S0 !! q)
              ∧ items st !! q = None ∧ removeditems st !! q = None).
Proof.
  intros Hcoh Hown. rewrite update_unfold. intros Hrun S0.
  set (root := path self) in *.
  set (L := relative root <$> listing).
  destruct (for_each listing _ _) as [[[]|e] s1] eqn:H1; [ | done].
  destruct (for_each _ _ s1) as [[[]|e] s2] eqn:H2; [ | done].
  destruct (for_each _ _ s2) as [[[]|e] s3] eqn:H3; [ | done].
  injection Hrun as <-.
  destruct (reported_dicts self s3) as (-> & -> & -> & -> & -> & _).
  (* the first loop *)
  assert (∀ k i, changeditems s1 !! k = Some i →
     items s1 !! k = Some i ∧ removeditems s1 !! k = None
     ∧ ∃ i0 t, S0 !! k = Some i0
               ∧ st_mtime fs (os_path_join root k) = Some t
               ∧ TrackedItem.newer t (TrackedItem.modtime i0) = true
               ∧ TrackedItem.modtime i = Some t
               ∧ TrackedItem.itemtype i = Some TrackedItem.file) as Hch1.
  { assert (scanning fs root S0 L s1 ∧
      (∀ k i, changeditems s1 !! k = Some i →
         items s1 !! k = Some i ∧ removeditems s1 !! k = None
         ∧ ∃ i0 t, S0 !! k = Some i0
                   ∧ st_mtime fs (os_path_join root k) = Some t
                   ∧ TrackedItem.newer t (TrackedItem.modtime i0) = true
                   ∧ TrackedItem.modtime i = Some t
                   ∧ TrackedItem.itemtype i = Some TrackedItem.file))
      as [_ ?]; [ | done].
    revert H1. apply (for_each_ok (λ s, scanning fs root S0 L s ∧
      (∀ k i, changeditems s !! k = Some i →
         items s !! k = Some i ∧ removeditems s !! k = None
         ∧ ∃ i0 t, S0 !! k = Some i0
                   ∧ st_mtime fs (os_path_join root k) = Some t
                   ∧ TrackedItem.newer t (TrackedItem.modtime i0) = true
                   ∧ TrackedItem.modtime i = Some t
                   ∧ TrackedItem.itemtype i = Some TrackedItem.file))).
    - intros p t t' Hp [Hsc Hinv] Hstep.
      assert (relative root p ∈ L) as HL by (by apply list_elem_of_fmap_2).
      split; [by eapply scan_scanning | by eapply scan_changed].
    - split; [by apply enter_scanning | ]. intros k i Hk. done. }
  destruct (scan_loop fs root S0 L self listing h s1)
    as (Hrec1 & Hlist1 & Hmv1); try done.
  (* the second loop *)
  assert ((reconciling fs root S0 L s2 ∧ listed L s2)
    ∧ (∀ k m, moveditems s2 !! k = Some m →
         items s2 !! k = Some m ∧ removeditems s2 !! k = None
         ∧ addeditems s2 !! k = None ∧ S0 !! k = None
         ∧ ∃ q, TrackedItem.oldpath m = Some q ∧ is_Some (S0 !! q)
                ∧ items s2 !! q = None ∧ removeditems s2 !! q = None)
    ∧ (∀ k i, changeditems s2 !! k = Some i →
         items s2 !! k = Some i ∧ removeditems s2 !! k = None
         ∧ is_Some (S0 !! k))
    ∧ changeditems s2 = changeditems s1) as ([Hrec2 Hlist2] & Hmv2 & Hch2 & Hsame).
  { revert H2. apply (for_each_ok (λ s,
      (reconciling fs root S0 L s ∧ listed L s)
      ∧ (∀ k m, moveditems s !! k = Some m →
           items s !! k = Some m ∧ removeditems s !! k = None
           ∧ addeditems s !! k = None ∧ S0 !! k = None
           ∧ ∃ q, TrackedItem.oldpath m = Some q ∧ is_Some (S0 !! q)
                  ∧ items s !! q = None ∧ removeditems s !! q = None)
      ∧ (∀ k i, changeditems s !! k = Some i →
           items s !! k = Some i ∧ removeditems s !! k = None
           ∧ is_Some (S0 !! k))
      ∧ changeditems s = changeditems s1)).
    - intros r t t' Hr ([Hrec Hlist] & Hmv & Hch & Hsame) Hstep.
      apply elem_of_dict_values in Hr as [k Hk].
      destruct (rec_removed _ _ _ _ _ Hrec1 _ _ Hk) as [HS Hit].
      assert (S0 !! TrackedItem.path r = Some r) as Hr
        by (by rewrite (coherent_lookup _ _ _ (rec_coherent _ _ _ _ _ Hrec1) Hit)).
      split; [by eapply detect_move_reconciling | ].
      destruct (detect_move_events fs root S0 L _ r t t' Hr Hrec Hmv Hch Hstep)
        as (? & ? & Hsame').
      split_and!; try done. by rewrite Hsame'.
    - split_and!; try done.
      + intros k m. rewrite Hmv1. done.
      + intros k i Hk. destruct (Hch1 _ _ Hk) as (? & ? & i0 & t & ? & _).
        eauto. }
  (* the third loop *)
  destruct (drop_loop (handler self) s2 s3) as (-> & -> & -> & -> & -> & _);
    [ | done | ].
  { intros k i Hk. destruct (rec_removed _ _ _ _ _ Hrec2 _ _ Hk) as [_ Hit].
    by eapply coherent_lookup, Hit; apply Hrec2. }
  split.
  - intros k i Hk. destruct (Hch2 _ _ Hk) as (Hi & Hrm & _).
    rewrite Hsame in Hk. destruct (Hch1 _ _ Hk) as (_ & _ & Hrest).
    split_and!; try done. by apply lookup_difference_Some.
  - intros k m Hk.
    destruct (Hmv2 _ _ Hk) as (Hi & Hrm & Had & HS & q & Hq & HSq & Hiq & Hrq).
    split_and!; try done; [by apply lookup_difference_Some | ].
    exists q. split_and!; try done. apply lookup_difference_None. by left.
Qed.

(** A tracked file whose time on the filesystem is greater than the stored
    one is among the changed items after a tick that returns. *)
Lemma update_detects self listing h st k i0 t :
  coherent (allitems self) →
  owned (path self) (allitems self) →
  update fs self listing h = (Ok tt, st) →
  allitems self !! k = Some i0 →
  k ∈ relative (path self) <$> listing →
  classify fs (os_path_join (path self) k) = Some TrackedItem.file →
  st_mtime fs (os_path_join (path self) k) = Some t →
  TrackedItem.newer t (TrackedItem.modtime i0) = true →
  is_Some (changeditems st !! k).
Proof.
  intros Hcoh Hown Hrun HS HL Hfile Ht Hn. rewrite update_unfold in Hrun.
  set (root := path self) in *. set (S0 := allitems self) in *.
  set (L := relative root <$> listing) in *.
  destruct (for_each listing _ _) as [[[]|e] s1] eqn:H1; [ | done].
  destruct (for_each _ _ s1) as [[[]|e] s2] eqn:H2; [ | done].
  destruct (for_each _ _ s2) as [[[]|e] s3] eqn:H3; [ | done].
  injection Hrun as <-.
  destruct (reported_dicts self s3) as (_ & _ & _ & -> & _).
  assert (scanning fs root S0 L s1
          ∧ (removeditems s1 !! k = None → is_Some (changeditems s1 !! k)))
    as [_ Hdet].
  { revert H1. apply (for_each_ok (λ s, scanning fs root S0 L s
      ∧ (removeditems s !! k = None → is_Some (changeditems s !! k)))).
    - intros p u u' Hp [Hsc Hinv] Hstep.
      assert (relative root p ∈ L) as HLp by (by apply list_elem_of_fmap_2).
      split; [by eapply scan_scanning | by eapply scan_detects].
    - split; [by apply enter_scanning | ]. simpl. fold S0. congruence. }
  destruct (scan_loop fs root S0 L self listing h s1)
    as (Hrec1 & Hlist1 & _); try done.
  assert (changeditems s2 = changeditems s1) as Hs2.
  { revert H2. apply (for_each_ok (λ s, changeditems s = changeditems s1));
      [ | done].
    intros r u u' _ Hu Hstep.
    destruct (detect_move_ok fs _ r u u' Hstep) as [-> | (a & fr & Hrest)];
      [done | ].
    destruct Hrest as (_ & _ & _ & _ & _ & _ & _ & ->). done. }
  assert (changeditems s3 = changeditems s2) as Hs3.
  { revert H3. apply (for_each_ok (λ s, changeditems s = changeditems s2));
      [ | done].
    intros r u u' _ Hu Hstep.
    apply drop_removed_shape in Hstep as (_ & _ & _ & -> & _). done. }
  rewrite Hs3, Hs2. apply Hdet. by destruct (Hlist1 k HL).
Qed.

End Reports.

(** X5: after a tick that returned, the paths of the snapshot are the
    enumerated paths (taken relative to the root), no more and no less. *)
Theorem snapshot_is_the_enumeration `{Platform} (fs : FileSystem)
    (self : ChangeTracker.t) (listing : list string) (h : nat)
    (st : ChangeTracker.state) (k : string) :
  coherent (ChangeTracker.allitems self) →
  owned (ChangeTracker.path self) (ChangeTracker.allitems self) →
  ChangeTracker.update fs self listing h = (Ok tt, st) →
  is_Some (ChangeTracker.items st !! k)
  ↔ k ∈ ChangeTracker.relative (ChangeTracker.path self) <$> listing.
Proof.
  intros Hcoh Hown Hrun.
  destruct (update_post fs self listing h st Hcoh Hown Hrun)
    as (_ & _ & Hsettled & Hlisted & _).
  split.
  - intros [i Hi]. by destruct (Hsettled k i Hi).
  - intros Hk. by destruct (Hlisted k Hk).
Qed.

Lemma snapshot_is_the_enumeration_witness :
  let fs := one_file "/r/b.txt" "hello" 7 None in
  let self := tracker {["a.txt" := file_item "a.txt" None "hello" 5]} in
  let st := (ChangeTracker.update (H := posix) fs self ["/r/b.txt"] 0).2 in
  is_Some (ChangeTracker.items st !! "a.txt")
  ↔ "a.txt" ∈ ChangeTracker.relative "/r" <$> ["/r/b.txt"].
Proof.
  intros fs self st.
  apply (snapshot_is_the_enumeration (H := posix) fs self ["/r/b.txt"] 0 st).
  - by apply map_Forall_singleton.
  - by apply map_Forall_singleton.
  - unfold st. apply run_eq. vm_compute. reflexivity.
Defined.

(** X6: after a tick that returned, every item of the snapshot is as its
    path was probed: its type is what the probes say; a file has the
    digest of its content as hash and a modification time that is not
    smaller than the one on the filesystem; an item that is not a file has
    neither hash nor modification time. *)
Theorem snapshot_items_are_refreshed `{Platform} (fs : FileSystem)
    (self : ChangeTracker.t) (listing : list string) (h : nat)
    (st : ChangeTracker.state) (k : string) (i : TrackedItem.t) :
  coherent (ChangeTracker.allitems self) →
  owned (ChangeTracker.path self) (ChangeTracker.allitems self) →
  ChangeTracker.update fs self listing h = (Ok tt, st) →
  ChangeTracker.items st !! k = Some i →
  let a := os_path_join (ChangeTracker.path self) k in
  TrackedItem.itemtype i = classify fs a
  ∧ (TrackedItem.itemtype i = Some TrackedItem.file →
     ∃ content t o,
       digest_input fs a = Ok content
       ∧ TrackedItem.hash i = Some (md5_digest content)
       ∧ st_mtime fs a = Some t
       ∧ TrackedItem.modtime i = Some o
       ∧ (t ≤ o)%Z)
  ∧ (TrackedItem.itemtype i ≠ Some TrackedItem.file →
     TrackedItem.hash i = None ∧ TrackedItem.modtime i = None).
Proof.
  intros Hcoh Hown Hrun Hi a.
  destruct (update_post fs self listing h st Hcoh Hown Hrun)
    as (Hcoh' & Hown' & Hsettled & _).
  destruct (Hsettled k i Hi) as [Hst _].
  pose proof (Hown' k i Hi) as Hct. simpl in Hct.
  pose proof (Hcoh' k i Hi) as Hp. simpl in Hp.
  destruct (settled_elim fs i _ Hst Hct) as (Hty & Hother & Hfile).
  rewrite Hp in *. fold a in Hty, Hfile.
  split; [done | ]. split; [ | done].
  intros Hf. destruct (Hfile Hf) as (m & t & Hm & Hh & Ht & Hn).
  unfold TrackedItem.newer in Hn.
  destruct (TrackedItem.modtime i) as [o|]; [ | done].
  apply bool_decide_eq_false in Hn. exists m, t, o.
  split_and!; try done. lia.
Qed.

Lemma snapshot_items_are_refreshed_witness :
  let fs := one_file "/r/b.txt" "hello" 7 None in
  let self := tracker {["b.txt" := file_item "b.txt" None "old" 9]} in
  let st := (ChangeTracker.update (H := posix) fs self ["/r/b.txt"] 0).2 in
  let i := file_item "b.txt" None "hello" 9 in
  TrackedItem.itemtype i = classify fs "/r/b.txt"
  ∧ (TrackedItem.itemtype i = Some TrackedItem.file →
     ∃ content t o,
       digest_input fs "/r/b.txt" = Ok content
       ∧ TrackedItem.hash i = Some (md5_digest (Platform := posix) content)
       ∧ st_mtime fs "/r/b.txt" = Some t
       ∧ TrackedItem.modtime i = Some o
       ∧ (t ≤ o)%Z)
  ∧ (TrackedItem.itemtype i ≠ Some TrackedItem.file →
     TrackedItem.hash i = None ∧ TrackedItem.modtime i = None).
Proof.
  intros fs self st i.
  apply (snapshot_items_are_refreshed (H := posix) fs self ["/r/b.txt"] 0 st
           "b.txt" i).
  - by apply map_Forall_singleton.
  - by apply map_Forall_singleton.
  - unfold st. apply run_eq. vm_compute. reflexivity.
  - vm_compute. reflexivity.
Defined.

(** X7: after a tick that returned, no path is in two of the four event
    sets. *)
Theorem events_are_disjoint `{Platform} (fs : FileSystem)
    (self : ChangeTracker.t) (listing : list string) (h : nat)
    (st : ChangeTracker.state) (k : string) :
  coherent (ChangeTracker.allitems self) →
  owned (ChangeTracker.path self) (ChangeTracker.allitems self) →
  ChangeTracker.update fs self listing h = (Ok tt, st) →
  (is_Some (ChangeTracker.addeditems st !! k) →
   ChangeTracker.removeditems st !! k = None
   ∧ ChangeTracker.changeditems st !! k = None
   ∧ ChangeTracker.moveditems st !! k = None)
  ∧ (is_Some (ChangeTracker.removeditems st !! k) →
     ChangeTracker.changeditems st !! k = None
     ∧ ChangeTracker.moveditems st !! k = None)
  ∧ (is_Some (ChangeTracker.changeditems st !! k) →
     ChangeTracker.moveditems st !! k = None).
Proof.
  intros Hcoh Hown Hrun.
  destruct (update_post fs self listing h st Hcoh Hown Hrun)
    as (_ & _ & _ & _ & Hrem & Hadd & _).
  destruct (update_events fs self listing h st Hcoh Hown Hrun) as [Hch Hmv].
  assert (∀ A (o : option A), ¬ is_Some o → o = None) as Hnone
    by (intros A [x|] Hx; [destruct Hx; by eauto | done]).
  split_and!.
  - intros [i Hi]. destruct (Hadd k i Hi) as [_ HS]. split_and!; apply Hnone.
    + intros [x Hx]. destruct (Hrem k x Hx) as [? _]. congruence.
    + intros [x Hx]. destruct (Hch k x Hx) as (_ & _ & i0 & t & ? & _).
      congruence.
    + intros [x Hx]. destruct (Hmv k x Hx) as (_ & _ & ? & _). congruence.
  - intros [i Hi]. split; apply Hnone.
    + intros [x Hx]. destruct (Hch k x Hx) as (_ & ? & _). congruence.
    + intros [x Hx]. destruct (Hmv k x Hx) as (_ & ? & _). congruence.
  - intros [i Hi]. apply Hnone. intros [x Hx].
    destruct (Hch k i Hi) as (_ & _ & i0 & t & ? & _).
    destruct (Hmv k x Hx) as (_ & _ & _ & ? & _). congruence.
Qed.

Lemma events_are_disjoint_witness :
  let fs := one_file "/r/b.txt" "hello" 7 None in
  let self := tracker {["a.txt" := file_item "a.txt" None "hello" 5]} in
  let st := (ChangeTracker.update (H := posix) fs self ["/r/b.txt"] 0).2 in
  (is_Some (ChangeTracker.addeditems st !! "b.txt") →
   ChangeTracker.removeditems st !! "b.txt" = None
   ∧ ChangeTracker.changeditems st !! "b.txt" = None
   ∧ ChangeTracker.moveditems st !! "b.txt" = None)
  ∧ (is_Some (ChangeTracker.removeditems st !! "b.txt") →
     ChangeTracker.changeditems st !! "b.txt" = None
     ∧ ChangeTracker.moveditems st !! "b.txt" = None)
  ∧ (is_Some (ChangeTracker.changeditems st !! "b.txt") →
     ChangeTracker.moveditems st !! "b.txt" = None).
Proof.
  intros fs self st.
  apply (events_are_disjoint (H := posix) fs self ["/r/b.txt"] 0 st "b.txt").
  - by apply map_Forall_singleton.
  - by apply map_Forall_singleton.
  - unfold st. apply run_eq. vm_compute. reflexivity.
Defined.

(** X8: an item that a tick reports as removed is an item of the old
    snapshot, as it was there; its path was not enumerated, and the new
    snapshot does not hold it. *)
Theorem removed_items_are_gone `{Platform} (fs : FileSystem)
    (self : ChangeTracker.t) (listing : list string) (h : nat)
    (st : ChangeTracker.state) (k : string) (i : TrackedItem.t) :
  coherent (ChangeTracker.allitems self) →
  owned (ChangeTracker.path self) (ChangeTracker.allitems self) →
  ChangeTracker.update fs self listing h = (Ok tt, st) →
  ChangeTracker.removeditems st !! k = Some i →
  ChangeTracker.allitems self !! k = Some i
  ∧ (k ∉ ChangeTracker.relative (ChangeTracker.path self) <$> listing)
  ∧ ChangeTracker.items st !! k = None.
Proof.
  intros Hcoh Hown Hrun Hk.
  destruct (update_post fs self listing h st Hcoh Hown Hrun)
    as (_ & _ & _ & Hlisted & Hrem & _).
  destruct (Hrem k i Hk) as [HS Hgone]. split_and!; try done.
  intros HL. destruct (Hlisted k HL) as [_ ?]. congruence.
Qed.

Lemma removed_items_are_gone_witness :
  let fs := one_file "/r/b.txt" "hello" 7 None in
  let self := tracker {["a.txt" := file_item "a.txt" None "other" 5]} in
  let st := (ChangeTracker.update (H := posix) fs self ["/r/b.txt"] 0).2 in
  ChangeTracker.allitems self !! "a.txt" = Some (file_item "a.txt" None "other" 5)
  ∧ ("a.txt" ∉ ChangeTracker.relative "/r" <$> ["/r/b.txt"])
  ∧ ChangeTracker.items st !! "a.txt" = None.
Proof.
  intros fs self st.
  apply (removed_items_are_gone (H := posix) fs self ["/r/b.txt"] 0 st).
  - by apply map_Forall_singleton.
  - by apply map_Forall_singleton.
  - unfold st. apply run_eq. vm_compute. reflexivity.
  - vm_compute. reflexivity.
Defined.

(** X9: an item that a tick reports as moved is in the new snapshot under
    its new path, which the old snapshot did not have and which is not
    reported as added; it comes from an item of the old snapshot that was a
    file, whose path it has as [oldpath] and whose hash, if it had one, it
    carries on; the old path is neither in the new snapshot nor reported
    as removed. *)
Theorem moved_items_are_relocated_files `{Platform} (fs : FileSystem)
    (self : ChangeTracker.t) (listing : list string) (h : nat)
    (st : ChangeTracker.state) (k : string) (m : TrackedItem.t) :
  coherent (ChangeTracker.allitems self) →
  owned (ChangeTracker.path self) (ChangeTracker.allitems self) →
  ChangeTracker.update fs self listing h = (Ok tt, st) →
  ChangeTracker.moveditems st !! k = Some m →
  ChangeTracker.items st !! k = Some m
  ∧ TrackedItem.path m = k
  ∧ ChangeTracker.allitems self !! k = None
  ∧ ChangeTracker.addeditems st !! k = None
  ∧ ∃ q i0,
      ChangeTracker.allitems self !! q = Some i0
      ∧ TrackedItem.itemtype i0 = Some TrackedItem.file
      ∧ TrackedItem.oldpath m = Some q
      ∧ (is_Some (TrackedItem.hash i0) →
         TrackedItem.hash m = TrackedItem.hash i0)
      ∧ ChangeTracker.items st !! q = None
      ∧ ChangeTracker.removeditems st !! q = None.
Proof.
  intros Hcoh Hown Hrun Hk.
  destruct (update_post fs self listing h st Hcoh Hown Hrun)
    as (Hcoh' & _ & _ & _ & _ & _ & Hori).
  destruct (update_events fs self listing h st Hcoh Hown Hrun) as [_ Hmv].
  destruct (Hmv k m Hk) as (Hi & _ & Had & HS & q & Hq & _ & Hiq & Hrq).
  split_and!; try done. { by apply (Hcoh' k m). }
  destruct (Hori k m Hi)
    as [(_ & _ & q' & i0 & Hq' & Ho & Hf & Hh) | (Hnone & _)];
    [ | congruence].
  assert (q' = q) as -> by congruence. exists q, i0. done.
Qed.

Lemma moved_items_are_relocated_files_witness :
  let fs := one_file "/r/b.txt" "hello" 7 None in
  let self := tracker {["a.txt" := file_item "a.txt" None "hello" 5]} in
  let st := (ChangeTracker.update (H := posix) fs self ["/r/b.txt"] 0).2 in
  let m := file_item "b.txt" (Some "a.txt") "hello" 7 in
  ChangeTracker.items st !! "b.txt" = Some m
  ∧ TrackedItem.path m = "b.txt"
  ∧ ChangeTracker.allitems self !! "b.txt" = None
  ∧ ChangeTracker.addeditems st !! "b.txt" = None
  ∧ ∃ q i0,
      ChangeTracker.allitems self !! q = Some i0
      ∧ TrackedItem.itemtype i0 = Some TrackedItem.file
      ∧ TrackedItem.oldpath m = Some q
      ∧ (is_Some (TrackedItem.hash i0) →
         TrackedItem.hash m = TrackedItem.hash i0)
      ∧ ChangeTracker.items st !! q = None
      ∧ ChangeTracker.removeditems st !! q = None.
Proof.
  intros fs self st m.
  apply (moved_items_are_relocated_files (H := posix) fs self ["/r/b.txt"] 0 st).
  - by apply map_Forall_singleton.
  - by apply map_Forall_singleton.
  - unfold st. apply run_eq. vm_compute. reflexivity.
  - vm_compute. reflexivity.
Defined.

(** X10: an item that a tick reports as changed was tracked under the same
    path, is a file, and has on the filesystem a modification time that is
    strictly greater than the stored one (or none was stored); the item
    reported, which is the one in the new snapshot, carries the new time. *)
Theorem changed_items_have_a_newer_time `{Platform} (fs : FileSystem)
    (self : ChangeTracker.t) (listing : list string) (h : nat)
    (st : ChangeTracker.state) (k : string) (i : TrackedItem.t) :
  coherent (ChangeTracker.allitems self) →
  owned (ChangeTracker.path self) (ChangeTracker.allitems self) →
  ChangeTracker.update fs self listing h = (Ok tt, st) →
  ChangeTracker.changeditems st !! k = Some i →
  ChangeTracker.items st !! k = Some i
  ∧ TrackedItem.itemtype i = Some TrackedItem.file
  ∧ ∃ i0 t,
      ChangeTracker.allitems self !! k = Some i0
      ∧ st_mtime fs (os_path_join (ChangeTracker.path self) k) = Some t
      ∧ match TrackedItem.modtime i0 with Some o => (o < t)%Z | None => True end
      ∧ TrackedItem.modtime i = Some t.
Proof.
  intros Hcoh Hown Hrun Hk.
  destruct (update_events fs self listing h st Hcoh Hown Hrun) as [Hch _].
  destruct (Hch k i Hk) as (Hi & _ & i0 & t & HS & Ht & Hn & Hm & Hty).
  split_and!; try done. exists i0, t. split_and!; try done.
  by apply newer_true.
Qed.

Lemma changed_items_have_a_newer_time_witness :
  let fs := one_file "/r/f.txt" "hello" 7 None in
  let self := tracker {["f.txt" := file_item "f.txt" None "old" 5]} in
  let st := (ChangeTracker.update (H := posix) fs self ["/r/f.txt"] 0).2 in
  let i := file_item "f.txt" None "hello" 7 in
  ChangeTracker.items st !! "f.txt" = Some i
  ∧ TrackedItem.itemtype i = Some TrackedItem.file
  ∧ ∃ i0 t,
      ChangeTracker.allitems self !! "f.txt" = Some i0
      ∧ st_mtime fs "/r/f.txt" = Some t
      ∧ match TrackedItem.modtime i0 with Some o => (o < t)%Z | None => True end
      ∧ TrackedItem.modtime i = Some t.
Proof.
  intros fs self st i.
  apply (changed_items_have_a_newer_time (H := posix) fs self ["/r/f.txt"] 0 st).
  - by apply map_Forall_singleton.
  - by apply map_Forall_singleton.
  - unfold st. apply run_eq. vm_compute. reflexivity.
  - vm_compute. reflexivity.
Defined.

(** X11: a tracked path that is enumerated, is a file when it is probed and
    has a modification time strictly greater than the stored one is
    reported as changed by a tick that returns. *)
Theorem newer_time_is_reported `{Platform} (fs : FileSystem)
    (self : ChangeTracker.t) (listing : list string) (h : nat)
    (st : ChangeTracker.state) (k : string) (i0 : TrackedItem.t) (t : Z) :
  coherent (ChangeTracker.allitems self) →
  owned (ChangeTracker.path self) (ChangeTracker.allitems self) →
  ChangeTracker.update fs self listing h = (Ok tt, st) →
  ChangeTracker.allitems self !! k = Some i0 →
  k ∈ ChangeTracker.relative (ChangeTracker.path self) <$> listing →
  classify fs (os_path_join (ChangeTracker.path self) k) = Some TrackedItem.file →
  st_mtime fs (os_path_join (ChangeTracker.path self) k) = Some t →
  match TrackedItem.modtime i0 with Some o => (o < t)%Z | None => True end →
  is_Some (ChangeTracker.changeditems st !! k).
Proof.
  intros Hcoh Hown Hrun HS HL Hfile Ht Hn.
  apply (update_detects fs self listing h st k i0 t); try done.
  by apply newer_true.
Qed.

Lemma newer_time_is_reported_witness :
  let fs := one_file "/r/f.txt" "hello" 7 None in
  let self := tracker {["f.txt" := file_item "f.txt" None "old" 5]} in
  let st := (ChangeTracker.update (H := posix) fs self ["/r/f.txt"] 0).2 in
  is_Some (ChangeTracker.changeditems st !! "f.txt").
Proof.
  intros fs self st.
  apply (newer_time_is_reported (H := posix) fs self ["/r/f.txt"] 0 st "f.txt"
           (file_item "f.txt" None "old" 5) 7).
  - by apply map_Forall_singleton.
  - by apply map_Forall_singleton.
  - unfold st. apply run_eq. vm_compute. reflexivity.
  - reflexivity.
  - by left.
  - reflexivity.
  - reflexivity.
  - simpl. lia.
Defined.

(** ** ChangeTracker.update: how a tick ends *)


Section Outcomes.
Context `{Platform}.
Variable fs : FileSystem.
Import ChangeTracker.

(** Every path that the probes call a file can be read to its end and has
    a modification time. *)
Hypothesis readable_files : ∀ a,
  classify fs a = Some TrackedItem.file →
  (∃ content, digest_input fs a = Ok content) ∧ is_Some (st_mtime fs a).




End Outcomes.

Section Endings.
Context `{Platform}.
Import ChangeTracker.



(** The record of the calls after the third loop. *)
Lemma drop_loop_calls b (l : list TrackedItem.t) s s' :
  for_each l (drop_removed b) s = (Ok tt, s') →
  calls s' = (calls s ++ (if b then on_removed <$> l else []))%list.
Proof.
  revert s. induction l as [|r l IH]; intros s; simpl.
  - intros [= <-]. destruct b; by rewrite app_nil_r.
  - intros Hrun. apply bind_Ok in Hrun as ([] & s1 & Hr & Hl).
    rewrite (IH _ Hl). clear IH Hl. revert Hr. rewrite drop_removed_eq.
    cbv zeta. destruct (items s !! _); [ | done]. intros [= <-].
    destruct b, s; simpl; [ | done]. by rewrite <- app_assoc.
Qed.

End Endings.

Section Ticks.
Context `{Platform}.
Variable fs : FileSystem.
Import ChangeTracker.

Lemma scan_loop_calls root listing s s' :
  for_each listing (scan fs root) s = (Ok tt, s') → calls s' = calls s.
Proof.
  intros Hrun.
  eapply (for_each_ok (λ t, calls t = calls s)); [ | | exact Hrun]; [ | done].
  intros p t t' _ Ht Hstep. rewrite <- Ht.
  destruct (scan_ok fs root p t t' Hstep) as (_ & _ & -> & _). done.
Qed.

Lemma move_loop_calls hs (l : list TrackedItem.t) s s' :
  for_each l (detect_move fs hs) s = (Ok tt, s') → calls s' = calls s.
Proof.
  intros Hrun.
  eapply (for_each_ok (λ t, calls t = calls s)); [ | | exact Hrun]; [ | done].
  intros r t t' _ Ht Hstep. rewrite <- Ht.
  destruct (detect_move_ok fs hs r t t' Hstep)
    as [-> | (a & fr & _ & _ & _ & _ & _ & _ & _ & ->)]; done.
Qed.

Lemma drop_loop_dicts b (l : list TrackedItem.t) s s' :
  for_each l (drop_removed b) s = (Ok tt, s') →
  removeditems s' = removeditems s.
Proof.
  intros Hrun.
  eapply (for_each_ok (λ t, removeditems t = removeditems s));
    [ | | exact Hrun]; [ | done].
  intros r t t' _ Ht Hstep. rewrite <- Ht.
  apply drop_removed_shape in Hstep as (_ & -> & _). done.
Qed.


End Ticks.

(** X12: the calls to the handler. A tick that returns has called the
    handler, if there is one, with each removed item, then with each added
    item, then with each changed item, then with each moved item, each set
    in the order in which its dict lists it, and with nothing else; with no
    handler it has made no call. *)
Theorem handler_is_called_in_order `{Platform} (fs : FileSystem)
    (self : ChangeTracker.t) (listing : list string) (h : nat)
    (st : ChangeTracker.state) :
  ChangeTracker.update fs self listing h = (Ok tt, st) →
  ChangeTracker.calls st
  = if ChangeTracker.handler self then
      ((((ChangeTracker.on_removed <$> dict_values (ChangeTracker.removeditems st))
        ++ (ChangeTracker.on_added <$> dict_values (ChangeTracker.addeditems st)))
       ++ (ChangeTracker.on_changed <$> dict_values (ChangeTracker.changeditems st)))
      ++ (ChangeTracker.on_moved <$> dict_values (ChangeTracker.moveditems st)))%list
    else [].
Proof.
  rewrite update_unfold. intros Hrun.
  destruct (for_each listing _ _) as [[[]|e] s1] eqn:H1; [ | done].
  destruct (for_each _ _ s1) as [[[]|e] s2] eqn:H2; [ | done].
  destruct (for_each _ _ s2) as [[[]|e] s3] eqn:H3; [ | done].
  injection Hrun as <-.
  pose proof (scan_loop_calls fs _ _ _ _ H1) as Hc1. simpl in Hc1.
  pose proof (move_loop_calls fs _ _ _ _ H2) as Hc2.
  pose proof (drop_loop_calls _ _ _ _ H3) as Hc3.
  pose proof (drop_loop_dicts _ _ _ _ H3) as Hd3.
  rewrite Hc2, Hc1 in Hc3. unfold reported.
  destruct (ChangeTracker.handler self); simpl; [ | done].
  by rewrite Hc3, Hd3.
Qed.

Lemma handler_is_called_in_order_witness :
  let fs := one_file "/r/b.txt" "hello" 7 None in
  let self := tracker {["a.txt" := file_item "a.txt" None "other" 5]} in
  let st := (ChangeTracker.update (H := posix) fs self ["/r/b.txt"] 0).2 in
  ChangeTracker.calls st
  = [ChangeTracker.on_removed (file_item "a.txt" None "other" 5);
     ChangeTracker.on_added (file_item "b.txt" None "hello" 7)].
Proof.
  intros fs self st.
  rewrite (handler_is_called_in_order (H := posix) fs self ["/r/b.txt"] 0 st).
  - vm_compute. reflexivity.
  - unfold st. apply run_eq. vm_compute. reflexivity.
Defined.





(** X15: the first tick. From the empty snapshot, a tick that returns
    reports nothing as removed, changed or moved, and reports as added
    exactly the items of the new snapshot. *)
Theorem first_tick_only_adds `{Platform} (fs : FileSystem)
    (self : ChangeTracker.t) (listing : list string) (h : nat)
    (st : ChangeTracker.state) :
  ChangeTracker.allitems self = ∅ →
  ChangeTracker.update fs self listing h = (Ok tt, st) →
  ChangeTracker.removeditems st = ∅
  ∧ ChangeTracker.changeditems st = ∅
  ∧ ChangeTracker.moveditems st = ∅
  ∧ ChangeTracker.addeditems st = ChangeTracker.items st.
Proof.
  intros Hempty Hrun.
  assert (coherent (ChangeTracker.allitems self)) as Hcoh
    by (rewrite Hempty; apply map_Forall_empty).
  assert (owned (ChangeTracker.path self) (ChangeTracker.allitems self)) as Hown
    by (rewrite Hempty; apply map_Forall_empty).
  destruct (update_post fs self listing h st Hcoh Hown Hrun)
    as (_ & _ & _ & _ & Hrem & Hadd & Hori).
  destruct (update_events fs self listing h st Hcoh Hown Hrun) as [Hch Hmv].
  rewrite Hempty in *. split_and!.
  - apply map_eq. intros k. rewrite lookup_empty.
    destruct (ChangeTracker.removeditems st !! k) as [i|] eqn:Hk; [ | done].
    destruct (Hrem k i Hk) as [HS _]. by rewrite lookup_empty in HS.
  - apply map_eq. intros k. rewrite lookup_empty.
    destruct (ChangeTracker.changeditems st !! k) as [i|] eqn:Hk; [ | done].
    destruct (Hch k i Hk) as (_ & _ & i0 & t & HS & _).
    by rewrite lookup_empty in HS.
  - apply map_eq. intros k. rewrite lookup_empty.
    destruct (ChangeTracker.moveditems st !! k) as [m|] eqn:Hk; [ | done].
    destruct (Hmv k m Hk) as (_ & _ & _ & _ & q & _ & [x HS] & _).
    by rewrite lookup_empty in HS.
  - apply map_eq. intros k.
    destruct (ChangeTracker.items st !! k) as [i|] eqn:Hk.
    + destruct (Hori k i Hk)
        as [(_ & _ & q & i0 & HS & _) | (_ & [(i0 & HS & _) | (Ha & _)])];
        [by rewrite lookup_empty in HS | by rewrite lookup_empty in HS | done].
    + destruct (ChangeTracker.addeditems st !! k) as [i|] eqn:Ha; [ | done].
      destruct (Hadd k i Ha) as [? _]. congruence.
Qed.

Lemma first_tick_only_adds_witness :
  let fs := one_file "/r/b.txt" "hello" 7 None in
  let st := (ChangeTracker.update (H := posix) fs (tracker ∅) ["/r/b.txt"] 0).2 in
  ChangeTracker.removeditems st = ∅
  ∧ ChangeTracker.changeditems st = ∅
  ∧ ChangeTracker.moveditems st = ∅
  ∧ ChangeTracker.addeditems st = ChangeTracker.items st.
Proof.
  intros fs st.
  apply (first_tick_only_adds (H := posix) fs (tracker ∅) ["/r/b.txt"] 0 st).
  - reflexivity.
  - unfold st. apply run_eq. vm_compute. reflexivity.
Defined.

(** ** ChangeTracker.update: the key of an enumerated path *)

Lemma drop_str_append (a b : string) : drop_str (String.length a) (a +:+ b) = b.
Proof.
  induction a as [|c a IH]; [by destruct b | ].
  rewrite append_cons. simpl. exact IH.
Qed.

Lemma drop_str_succ n (s : string) : drop_str (n + 1) s = drop_str 1 (drop_str n s).
Proof.
  revert s. induction n as [|n IH]; intros s; [done | ].
  destruct s as [|c s]; [done | ]. simpl. apply IH.
Qed.

(** X16: the key of an enumerated path. Of a path that is the root followed
    by one character and a rest, the key is the rest with every backslash
    turned into a slash; the character after the root is dropped whatever
    it is. *)
Theorem relative_drops_root_and_one_character (root rest : string) (c : ascii) :
  ChangeTracker.relative root (root +:+ String c rest)
  = replace_char "\" "/" rest.
Proof.
  unfold ChangeTracker.relative.
  by rewrite drop_str_succ, drop_str_append.
Qed.

(** X17: no key has a backslash in it. *)
Theorem relative_has_no_backslash (root itempath : string) :
  "\"%char ∉ String.list_ascii_of_string (ChangeTracker.relative root itempath).
Proof.
  unfold ChangeTracker.relative.
  generalize (drop_str (String.length root + 1) itempath). intros s.
  induction s as [|c s IH]; simpl.
  - apply not_elem_of_nil.
  - apply not_elem_of_cons. split; [ | exact IH].
    destruct (Ascii.eqb c "\") eqn:Hc; [done | ].
    intros <-. by rewrite Ascii.eqb_refl in Hc.
Qed.

(** ** TrackedItem.__cmp__ *)

Lemma string_compare_refl (s : string) : String.compare s s = Eq.
Proof.
  pose proof (String.compare_antisym s s) as Hs.
  by destruct (String.compare s s).
Qed.

(** X18: items are ordered by their path alone. Two items compare as equal
    exactly when their paths are equal, whatever their other fields, and
    comparing them the other way round gives the opposite result. *)
Theorem cmp_orders_by_path (self other : TrackedItem.t) :
  (TrackedItem.__cmp__ self (Some other) = 0
   ↔ TrackedItem.path self = TrackedItem.path other)
  ∧ TrackedItem.__cmp__ self (Some other)
    = (- TrackedItem.__cmp__ other (Some self))%Z.
Proof.
  unfold TrackedItem.__cmp__, String.ltb.
  rewrite (String.compare_antisym (TrackedItem.path other)).
  destruct (String.compare (TrackedItem.path self) (TrackedItem.path other))
    eqn:Hc; simpl; split; try done; split; try done.
  - intros _. by apply String.compare_eq_iff.
  - intros Heq. rewrite Heq, string_compare_refl in Hc. done.
  - intros Heq. rewrite Heq, string_compare_refl in Hc. done.
Qed.

(** ** recursive_list *)

Section Enumeration.
Context `{Platform}.
Variable fs : FileSystem.
Variable listdir : string → option (list string).

Lemma entry_below_inner d rootpath (l l' : list string) p :
  (∀ q, q ∈ l → q ∈ l') →
  d = rootpath ∨ (d ∈ l' ∧ islink fs d = false ∧ isdir fs d = true) →
  entry_below fs listdir d l p → entry_below fs listdir rootpath l' p.
Proof.
  intros Hsub Hd (d' & name & names & -> & Hls & Hn & Hd').
  exists d', name, names. split_and!; try done.
  destruct Hd' as [-> | (Hin & Hl & Hdir)]; [done | ].
  right. split_and!; auto.
Qed.

Lemma for_itemnames_sound descend rootpath itemnames0 itemnames l e :
  (∀ d l e p, descend d = (l, e) → p ∈ l → entry_below fs listdir d l p) →
  listdir rootpath = Some itemnames0 →
  (∀ n, n ∈ itemnames → n ∈ itemnames0) →
  for_itemnames fs descend rootpath itemnames = (l, e) →
  ∀ p, p ∈ l → entry_below fs listdir rootpath l p.
Proof.
  intros Hdescend Hls. revert l e.
  induction itemnames as [|name names IH]; intros l e Hsub; simpl.
  { intros [= <- <-] p Hp. by apply elem_of_nil in Hp. }
  set (itempath := os_path_join rootpath name).
  destruct (negb (islink fs itempath) && isdir fs itempath) eqn:Hc.
  - apply andb_true_iff in Hc as [Hl Hd]. apply negb_true_iff in Hl.
    destruct (descend itempath) as [below raised] eqn:Hrun.
    destruct raised as [e0|].
    + intros [= <- <-] p Hp. apply elem_of_cons in Hp as [-> | Hp].
      * exists rootpath, name, itemnames0. split_and!; try done; [ | by left].
        apply Hsub. by left.
      * apply (entry_below_inner itempath rootpath below); [by right | | ].
        -- right. split_and!; [by left | done | done].
        -- by apply (Hdescend itempath below (Some e0)).
    + destruct (for_itemnames fs descend rootpath names) as [later raised']
        eqn:Hlater.
      intros [= <- <-] p Hp. apply elem_of_cons in Hp as [-> | Hp].
      * exists rootpath, name, itemnames0. split_and!; try done; [ | by left].
        apply Hsub. by left.
      * apply elem_of_app in Hp as [Hp | Hp].
        -- apply (entry_below_inner itempath rootpath below).
           ++ intros q Hq. right. apply elem_of_app. by left.
           ++ right. split_and!; [by left | done | done].
           ++ by apply (Hdescend itempath below None).
        -- apply (entry_below_inner rootpath rootpath later).
           ++ intros q Hq. right. apply elem_of_app. by right.
           ++ by left.
           ++ apply (IH later raised'); [ | done | done].
              intros n Hn. apply Hsub. by right.
  - destruct (for_itemnames fs descend rootpath names) as [later raised']
      eqn:Hlater.
    intros [= <- <-] p Hp. apply elem_of_cons in Hp as [-> | Hp].
    + exists rootpath, name, itemnames0. split_and!; try done; [ | by left].
      apply Hsub. by left.
    + apply (entry_below_inner rootpath rootpath later).
      * intros q Hq. by right.
      * by left.
      * apply (IH later raised'); [ | done | done].
        intros n Hn. apply Hsub. by right.
Qed.

Lemma entries_in_mono d (l l' : list string) :
  (∀ q, q ∈ l → q ∈ l') → entries_in listdir d l → entries_in listdir d l'.
Proof.
  intros Hsub (names & Hls & Hin). exists names. split; [done | ].
  intros n Hn. by apply Hsub, Hin.
Qed.

Lemma for_itemnames_complete descend rootpath itemnames l :
  (∀ d l, descend d = (l, None) →
     entries_in listdir d l
     ∧ ∀ d', d' ∈ l → islink fs d' = false → isdir fs d' = true →
             entries_in listdir d' l) →
  for_itemnames fs descend rootpath itemnames = (l, None) →
  (∀ n, n ∈ itemnames → os_path_join rootpath n ∈ l)
  ∧ ∀ d', d' ∈ l → islink fs d' = false → isdir fs d' = true →
          entries_in listdir d' l.
Proof.
  intros Hdescend. revert l.
  induction itemnames as [|name names IH]; intros l; simpl.
  { intros [= <-]. split; intros x Hx; by apply elem_of_nil in Hx. }
  set (itempath := os_path_join rootpath name).
  destruct (if negb (islink fs itempath) && isdir fs itempath
            then descend itempath else ([], None)) as [below raised] eqn:Hrun.
  destruct raised as [e0|]; [done | ].
  destruct (for_itemnames fs descend rootpath names) as [later raised']
    eqn:Hlater.
  intros [= <- ->].
  destruct (IH later eq_refl) as [IHn IHd]. split.
  - intros n Hn. apply elem_of_cons in Hn as [-> | Hn]; [by left | ].
    right. apply elem_of_app. right. by apply IHn.
  - intros d' Hd' Hl Hd.
    assert (∀ q, q ∈ below → q ∈ itempath :: below ++ later) as Hsubb
      by (intros q Hq; right; apply elem_of_app; by left).
    assert (∀ q, q ∈ later → q ∈ itempath :: below ++ later) as Hsubl
      by (intros q Hq; right; apply elem_of_app; by right).
    apply elem_of_cons in Hd' as [-> | Hd'].
    + rewrite Hl, Hd in Hrun. simpl in Hrun.
      destruct (Hdescend _ _ Hrun) as [Hin _].
      by apply (entries_in_mono itempath below).
    + apply elem_of_app in Hd' as [Hd' | Hd'].
      * destruct (negb (islink fs itempath) && isdir fs itempath).
        -- destruct (Hdescend _ _ Hrun) as [_ Hcl].
           apply (entries_in_mono d' below); [done | ]. by apply Hcl.
        -- injection Hrun as <-. by apply elem_of_nil in Hd'.
      * apply (entries_in_mono d' later); [done | ]. by apply IHd.
Qed.

End Enumeration.

(** X19: symbolic links are not followed. What is enumerated depends on
    the listing of the root and of the directories that are no symbolic
    links, and on no other: two listings that agree there give the same
    paths and the same ending. *)
Theorem symlinks_are_not_listed `{Platform} (fs : FileSystem)
    (listdir listdir' : string → option (list string)) (fuel : nat)
    (rootpath : string) :
  listdir' rootpath = listdir rootpath →
  (∀ p, islink fs p = false → isdir fs p = true → listdir' p = listdir p) →
  recursive_list fs listdir' fuel rootpath
  = recursive_list fs listdir fuel rootpath.
Proof.
  intros Hroot Hdirs. revert rootpath Hroot.
  induction fuel as [|fuel IH]; intros rootpath Hroot; [done | ].
  simpl. rewrite Hroot. clear Hroot.
  destruct (listdir rootpath) as [names|]; [ | done].
  induction names as [|name names IHn]; [done | ].
  simpl. rewrite IHn.
  destruct (negb (islink fs _) && isdir fs _) eqn:Hc; [ | done].
  apply andb_true_iff in Hc as [Hl Hd]. apply negb_true_iff in Hl.
  by rewrite (IH _ (Hdirs _ Hl Hd)).
Qed.

Lemma symlinks_are_not_listed_witness :
  recursive_list (H := posix) small_tree (small_tree_listdir (Some ["x"])) 3 "/r"
  = recursive_list (H := posix) small_tree (small_tree_listdir None) 3 "/r".
Proof.
  apply (symlinks_are_not_listed (H := posix) small_tree
           (small_tree_listdir None) (small_tree_listdir (Some ["x"])) 3 "/r").
  - reflexivity.
  - intros p. unfold small_tree, small_tree_listdir. simpl.
    intros Hl%bool_decide_eq_false _.
    repeat case_bool_decide; done.
Defined.

(** X20: only entries are yielded. Every path that the enumeration yields,
    also when an exception ends it, is the join of a directory and of one
    of the names that [os.listdir] gives for it, and that directory is the
    root or a yielded directory that is no symbolic link. *)
Theorem yielded_paths_are_entries `{Platform} (fs : FileSystem)
    (listdir : string → option (list string)) (fuel : nat)
    (rootpath : string) (l : list string) (e : option exn) :
  recursive_list fs listdir fuel rootpath = (l, e) →
  ∀ p, p ∈ l → entry_below fs listdir rootpath l p.
Proof.
  revert rootpath l e. induction fuel as [|fuel IH]; intros rootpath l e; simpl.
  { intros [= <- _] p Hp. by apply elem_of_nil in Hp. }
  destruct (listdir rootpath) as [names|] eqn:Hls.
  - apply (for_itemnames_sound fs listdir _ rootpath names names); try done.
    intros d l' e' p Hrun. by apply (IH d l' e').
  - intros [= <- _] p Hp. by apply elem_of_nil in Hp.
Qed.

Lemma yielded_paths_are_entries_witness :
  entry_below (H := posix) small_tree (small_tree_listdir None) "/r"
    ["/r/a"; "/r/d"; "/r/d/b"; "/r/l"] "/r/d/b".
Proof.
  apply (yielded_paths_are_entries (H := posix) small_tree
           (small_tree_listdir None) 3 "/r" _ None).
  - vm_compute. reflexivity.
  - apply (bool_decide_unpack _). vm_compute. exact I.
Defined.

(** X21: every entry is yielded. When the enumeration ends without an
    exception, the root and every yielded directory that is no symbolic
    link have been listed, and each of their entries has been yielded. *)
Theorem directory_entries_are_yielded `{Platform} (fs : FileSystem)
    (listdir : string → option (list string)) (fuel : nat)
    (rootpath : string) (l : list string) :
  recursive_list fs listdir fuel rootpath = (l, None) →
  ∀ d, d = rootpath ∨ (d ∈ l ∧ islink fs d = false ∧ isdir fs d = true) →
       entries_in listdir d l.
Proof.
  intros Hrun.
  assert (entries_in listdir rootpath l
          ∧ ∀ d', d' ∈ l → islink fs d' = false → isdir fs d' = true →
                  entries_in listdir d' l) as [Hroot Hdirs].
  { revert rootpath l Hrun.
    induction fuel as [|fuel IH]; intros rootpath l; simpl; [done | ].
    destruct (listdir rootpath) as [names|] eqn:Hls; [ | done].
    intros Hrun.
    destruct (for_itemnames_complete fs listdir _ rootpath names l IH Hrun)
      as [Hn Hd].
    split; [ | done]. by exists names. }
  intros d [-> | (Hin & Hl & Hd)]; [done | by apply Hdirs].
Qed.

Lemma directory_entries_are_yielded_witness :
  entries_in (H := posix) (small_tree_listdir None) "/r/d"
    ["/r/a"; "/r/d"; "/r/d/b"; "/r/l"].
Proof.
  apply (directory_entries_are_yielded (H := posix) small_tree
           (small_tree_listdir None) 3 "/r").
  - vm_compute. reflexivity.
  - right. split_and!.
    + apply (bool_decide_unpack _). vm_compute. exact I.
    + reflexivity.
    + reflexivity.
Defined.

(** ** savestate and loadstate: what a saved snapshot comes back as *)

Lemma by_path_keys (l : list TrackedItem.t) (d : gmap string TrackedItem.t) :
  coherent d → coherent (foldl (λ d i, <[TrackedItem.path i := i]> d) d l).
Proof.
  revert d. induction l as [|x l IH]; intros d Hd; simpl; [done | ].
  apply IH. by apply map_Forall_insert_2.
Qed.

(** X22: whatever snapshot [savestate] wrote, keyed by path or not, what
    [loadstate] reads back from that file is keyed by path and owned by the
    loading tracker, which is what a tick starts from. *)
Theorem loaded_snapshot_is_keyed_and_owned `{Platform} `{Pickler}
    (self loader : ChangeTracker.t) (filename : option string) (d : Disk) :
  let f := default ChangeTracker.class_name filename in
  writable d f = true →
  readable d f = true →
  ∃ d' loaded,
    ChangeTracker.savestate self filename d = (Ok tt, d')
    ∧ ChangeTracker.loadstate loader filename d' = (Ok tt, loaded)
    ∧ coherent (ChangeTracker.allitems loaded)
    ∧ owned (ChangeTracker.path loader) (ChangeTracker.allitems loaded).
Proof.
  intros f Hw Hr. unfold ChangeTracker.savestate. fold f. rewrite Hw.
  eexists _, _. split; [done | ].
  unfold ChangeTracker.loadstate. fold f. simpl.
  rewrite Hr, lookup_insert_eq, pickle_loads_dumps.
  split; [done | ]. simpl. split.
  - intros k i Hk.
    apply lookup_fmap_Some in Hk as (j & <- & Hk).
    apply lookup_fmap_Some in Hk as (j0 & <- & Hk). simpl.
    revert Hk. apply (by_path_keys _ ∅). apply map_Forall_empty.
  - intros k i Hk. by apply lookup_fmap_Some in Hk as (j & <- & _).
Qed.

Lemma loaded_snapshot_is_keyed_and_owned_witness :
  let self := tracker {["stale" := file_item "a.txt" None "hello" 5]} in
  ∃ d' loaded,
    ChangeTracker.savestate (H := posix) self None empty_disk = (Ok tt, d')
    ∧ ChangeTracker.loadstate (tracker ∅) None d' = (Ok tt, loaded)
    ∧ coherent (ChangeTracker.allitems loaded)
    ∧ owned (ChangeTracker.path (tracker ∅)) (ChangeTracker.allitems loaded).
Proof.
  intros self.
  apply (loaded_snapshot_is_keyed_and_owned (H := posix)
           (H0 := identity_pickler) self (tracker ∅) None empty_disk).
  - reflexivity.
  - reflexivity.
Defined.
